(** * BlackHole particle animation: star infall and accretion-disk rotation

    A shallow embedding of the per-frame particle updates of the
    [BlackHole] component (the [useMemo] initialisers [particleData] and
    [starData], and the two loops of the [useFrame] callback), with the
    properties of its specification.

    Numbers.  The component computes in JavaScript doubles and stores into
    [Float32Array]s.  The embedding is the exact-arithmetic reading of that
    code: every number is a real ([R]), [Math.sqrt], [Math.sin], [Math.cos],
    [Math.acos] are the real functions, and [Math.atan2] is defined below
    by its quadrant table and [Math.max] is [Rmax].  Rounding, overflow and
    NaN are outside the model; where IEEE arithmetic would produce NaN or an
    infinity (a zero divisor, a negative square-root argument) the theorems
    on the values computed there carry the hypothesis that excludes it.

    Randomness.  [Math.random()] is a stream of draws threaded through the
    code in call order; every draw lies in [0,1). *)

From Stdlib Require Import Reals Lra Lia Psatz FunctionalExtensionality.
From stdpp Require Import base list.

Local Open Scope R_scope.

(** ** Math.random *)

Definition Rand := nat -> R.

(** The stream left after [n] calls. *)
Definition rnd_drop (n : nat) (rnd : Rand) : Rand := fun k => rnd (n + k)%nat.

(** Every draw is in [0,1). *)
Definition rnd_ok (rnd : Rand) : Prop := forall k, 0 <= rnd k < 1.

(** ** Math.atan2 *)

Definition atan2 (y x : R) : R :=
  if Rlt_dec 0 x then atan (y / x)
  else if Rlt_dec x 0 then
    (if Rle_dec 0 y then atan (y / x) + PI else atan (y / x) - PI)
  else if Rlt_dec 0 y then PI / 2
  else if Rlt_dec y 0 then - (PI / 2)
  else 0.

(** ** Component props, with the defaults of the destructuring pattern *)

Record BlackHoleProps := mkProps {
  size : R;
  accretionDiskSize : R;
  gravitationalStrength : R
}.

Definition defaultProps : BlackHoleProps :=
  {| size := 3; accretionDiskSize := 8; gravitationalStrength := 0.5 |}.

(** ** Three-component values *)

Record Vec3 := V3 { vx : R; vy : R; vz : R }.

Definition dot (a b : Vec3) : R := vx a * vx b + vy a * vy b + vz a * vz b.

(** [Math.sqrt(x * x + y * y + z * z)] *)
Definition distanceToCenter (p : Vec3) : R :=
  sqrt (vx p * vx p + vy p * vy p + vz p * vz p).

(** ** One star: the slots of index [i] in the five star buffers *)

Record Star := mkStar {
  pos : Vec3;
  vel : Vec3;
  ssize : R;
  lifetime : R
}.

(** The spawn shell, written identically in [starData] and in the respawn
    branch: draws 0, 1, 2 of the stream are [theta], [phi] and [radius]. *)
Definition shell_theta (rnd : Rand) : R := rnd 0%nat * PI * 2.
Definition shell_phi (rnd : Rand) : R := acos (rnd 1%nat * 2 - 1).
Definition shell_radius (A : R) (rnd : Rand) : R := A * 2 + rnd 2%nat * A.

Definition shell_point (A : R) (rnd : Rand) : Vec3 :=
  let theta := shell_theta rnd in
  let phi := shell_phi rnd in
  let radius := shell_radius A rnd in
  V3 (radius * sin phi * cos theta)
     (radius * sin phi * sin theta)
     (radius * cos phi).

(** *** The respawn branch (four draws) *)
Definition respawn (P : BlackHoleProps) (rnd : Rand) : Star * Rand :=
  ({| pos := shell_point (accretionDiskSize P) rnd;
      vel := V3 0 0 0;
      ssize := 0.2 + rnd 3%nat * 0.3;
      lifetime := 0 |},
   rnd_drop 4 rnd).

(** *** The infall branch, statement by statement *)

Definition forceMagnitude (P : BlackHoleProps) (d : R) : R :=
  (gravitationalStrength P * 0.5) / (d * d).

(** [dirX], [dirY], [dirZ] *)
Definition direction (p : Vec3) (d : R) : Vec3 :=
  V3 (- vx p / d) (- vy p / d) (- vz p / d).

(** [velocities[i3..] += dir * forceMagnitude * 0.1] *)
Definition gravity_increment (dir : Vec3) (F : R) : Vec3 :=
  V3 (vx dir * F * 0.1) (vy dir * F * 0.1) (vz dir * F * 0.1).

Definition orbitalSpeed (F d : R) : R := sqrt (F / d) * 2.

(** [velocities[i3] += -dirZ * orbitalSpeed * 0.5;
     velocities[i3 + 2] += dirX * orbitalSpeed * 0.5] *)
Definition orbital_increment (dir : Vec3) (os : R) : Vec3 :=
  V3 (- vz dir * os * 0.5) 0 (vx dir * os * 0.5).

Definition vadd (a b : Vec3) : Vec3 :=
  V3 (vx a + vx b) (vy a + vy b) (vz a + vz b).

(** [velocities[i3..] *= 0.99] *)
Definition damp (v : Vec3) : Vec3 := V3 (vx v * 0.99) (vy v * 0.99) (vz v * 0.99).

(** The velocity written by the infall branch for a star at [p], [d] away
    from the centre, whose stored velocity is [v]: gravity first, then the
    orbital component (which leaves the y slot alone), then damping. *)
Definition infall_velocity (P : BlackHoleProps) (p : Vec3) (d : R) (v : Vec3) : Vec3 :=
  let F := forceMagnitude P d in
  let dir := direction p d in
  let v1 := vadd v (gravity_increment dir F) in
  let os := orbitalSpeed F d in
  let v2 := V3 (vx v1 + vx (orbital_increment dir os))
               (vy v1)
               (vz v1 + vz (orbital_increment dir os)) in
  damp v2.

(** [sizes[i] = (0.2 + Math.random() * 0.1) * Math.max(0.1, normalizedDist)] *)
Definition normalizedDist (P : BlackHoleProps) (d : R) : R :=
  d / (accretionDiskSize P * 3).

Definition shrunk_size (P : BlackHoleProps) (u d : R) : R :=
  (0.2 + u * 0.1) * Rmax 0.1 (normalizedDist P d).

(** The infall branch (one draw). *)
Definition infall (P : BlackHoleProps) (rnd : Rand) (s : Star) : Star * Rand :=
  let d := distanceToCenter (pos s) in
  let v := infall_velocity P (pos s) d (vel s) in
  ({| pos := vadd (pos s) v;
      vel := v;
      ssize := shrunk_size P (rnd 0%nat) d;
      lifetime := lifetime s + 1 |},
   rnd_drop 1 rnd).

(** *** The body of the star loop *)
Definition star_update (P : BlackHoleProps) (rnd : Rand) (s : Star) : Star * Rand :=
  if Rlt_dec (distanceToCenter (pos s)) (size P * 1.5)
  then respawn P rnd
  else infall P rnd s.

(** ** Flat numeric buffers ([Float32Array])

    A typed array has a fixed length: a write past the end is ignored, which
    is what [<[i:=v]>] does on a list.  A read past the end is [undefined] in
    JavaScript; the loops below never make one on a well-formed buffer set,
    and [rd] returns 0 there. *)

Definition rd (a : list R) (i : nat) : R := default 0 (a !! i).

Definition rd3 (a : list R) (i3 : nat) : Vec3 :=
  V3 (rd a i3) (rd a (i3 + 1)) (rd a (i3 + 2)).

Definition wr3 (a : list R) (i3 : nat) (v : Vec3) : list R :=
  <[(i3 + 2)%nat := vz v]> (<[(i3 + 1)%nat := vy v]> (<[i3 := vx v]> a)).

(** [for (let i = 0; i < n; i++) body] *)
Definition for_loop {S : Type} (n : nat) (body : nat -> S -> S) (s : S) : S :=
  fold_left (fun acc i => body i acc) (seq 0 n) s.

(** ** starData *)

Module Stars.
Record t := mk {
  positions : list R;
  velocities : list R;
  sizes : list R;
  colors : list R;
  lifetimes : list R;
  count : nat
}.
End Stars.

(** The buffers are as long as [starData] allocates them. *)
Definition stars_wf (d : Stars.t) : Prop :=
  length (Stars.positions d) = (Stars.count d * 3)%nat /\
  length (Stars.velocities d) = (Stars.count d * 3)%nat /\
  length (Stars.sizes d) = Stars.count d /\
  length (Stars.colors d) = (Stars.count d * 3)%nat /\
  length (Stars.lifetimes d) = Stars.count d.

Definition read_star (d : Stars.t) (i : nat) : Star :=
  let i3 := (i * 3)%nat in
  {| pos := rd3 (Stars.positions d) i3;
     vel := rd3 (Stars.velocities d) i3;
     ssize := rd (Stars.sizes d) i;
     lifetime := rd (Stars.lifetimes d) i |}.

(** Both branches of the loop body store position, velocity, size and
    lifetime of star [i]; nothing stores into [colors]. *)
Definition write_star (d : Stars.t) (i : nat) (s : Star) : Stars.t :=
  let i3 := (i * 3)%nat in
  {| Stars.positions := wr3 (Stars.positions d) i3 (pos s);
     Stars.velocities := wr3 (Stars.velocities d) i3 (vel s);
     Stars.sizes := <[i := ssize s]> (Stars.sizes d);
     Stars.colors := Stars.colors d;
     Stars.lifetimes := <[i := lifetime s]> (Stars.lifetimes d);
     Stars.count := Stars.count d |}.

(** Star colour chosen at spawn: white, or yellow. *)
Definition star_color (colorChoice : R) : Vec3 :=
  if Rlt_dec colorChoice 0.5 then V3 1 1 1 else V3 1 0.9 0.6.

(** One iteration of the [starData] loop (six draws: theta, phi, radius,
    size, colorChoice, lifetime). *)
Definition starData_iter (P : BlackHoleProps) (i : nat) (st : Stars.t * Rand)
  : Stars.t * Rand :=
  let '(d, rnd) := st in
  let i3 := (i * 3)%nat in
  ({| Stars.positions := wr3 (Stars.positions d) i3 (shell_point (accretionDiskSize P) rnd);
      Stars.velocities := wr3 (Stars.velocities d) i3 (V3 0 0 0);
      Stars.sizes := <[i := 0.2 + rnd 3%nat * 0.3]> (Stars.sizes d);
      Stars.colors := wr3 (Stars.colors d) i3 (star_color (rnd 4%nat));
      Stars.lifetimes := <[i := rnd 5%nat * 100]> (Stars.lifetimes d);
      Stars.count := Stars.count d |},
   rnd_drop 6 rnd).

Definition stars_alloc (count : nat) : Stars.t :=
  {| Stars.positions := replicate (count * 3) 0;
     Stars.velocities := replicate (count * 3) 0;
     Stars.sizes := replicate count 0;
     Stars.colors := replicate (count * 3) 0;
     Stars.lifetimes := replicate count 0;
     Stars.count := count |}.

Definition starData_n (count : nat) (P : BlackHoleProps) (rnd : Rand) : Stars.t * Rand :=
  for_loop count (starData_iter P) (stars_alloc count, rnd).

Definition starData : BlackHoleProps -> Rand -> Stars.t * Rand := starData_n 500.

(** ** The star loop of [useFrame] *)

Definition star_iter (P : BlackHoleProps) (i : nat) (st : Stars.t * Rand)
  : Stars.t * Rand :=
  let '(d, rnd) := st in
  let '(s', rnd') := star_update P rnd (read_star d i) in
  (write_star d i s', rnd').

Definition animate_stars (P : BlackHoleProps) (st : Stars.t * Rand) : Stars.t * Rand :=
  for_loop (Stars.count (fst st)) (star_iter P) st.

(** [n] frames. *)
Fixpoint frames (P : BlackHoleProps) (n : nat) (st : Stars.t * Rand) : Stars.t * Rand :=
  match n with
  | O => st
  | S k => animate_stars P (frames P k st)
  end.

(** ** particleData: the accretion disk *)

Module Disk.
Record t := mk {
  positions : list R;
  colors : list R;
  sizes : list R;
  count : nat
}.
End Disk.

Definition disk_wf (d : Disk.t) : Prop :=
  length (Disk.positions d) = (Disk.count d * 3)%nat.

(** Colour gradient from hot (centre) to cool (outer). *)
Definition disk_color (t : R) : Vec3 :=
  if Rlt_dec t 0.3 then V3 1 0.8 0.3
  else if Rlt_dec t 0.6 then V3 1 0.4 0.1
  else V3 0.8 0.2 0.5.

Definition disk_spawn_radius (P : BlackHoleProps) (rnd : Rand) : R :=
  size P * 1.5 + rnd 1%nat * accretionDiskSize P.

Definition disk_spawn (P : BlackHoleProps) (rnd : Rand) : Vec3 :=
  let angle := rnd 0%nat * PI * 2 in
  let radius := disk_spawn_radius P rnd in
  V3 (cos angle * radius) ((rnd 2%nat - 0.5) * 0.5) (sin angle * radius).

(** One iteration of the [particleData] loop (four draws: angle, radius,
    height, size). *)
Definition particleData_iter (P : BlackHoleProps) (i : nat) (st : Disk.t * Rand)
  : Disk.t * Rand :=
  let '(d, rnd) := st in
  let i3 := (i * 3)%nat in
  let radius := disk_spawn_radius P rnd in
  let t := (radius - size P * 1.5) / accretionDiskSize P in
  ({| Disk.positions := wr3 (Disk.positions d) i3 (disk_spawn P rnd);
      Disk.colors := wr3 (Disk.colors d) i3 (disk_color t);
      Disk.sizes := <[i := 0.05 + rnd 3%nat * 0.15]> (Disk.sizes d);
      Disk.count := Disk.count d |},
   rnd_drop 4 rnd).

Definition disk_alloc (count : nat) : Disk.t :=
  {| Disk.positions := replicate (count * 3) 0;
     Disk.colors := replicate (count * 3) 0;
     Disk.sizes := replicate count 0;
     Disk.count := count |}.

Definition particleData_n (count : nat) (P : BlackHoleProps) (rnd : Rand) : Disk.t * Rand :=
  for_loop count (particleData_iter P) (disk_alloc count, rnd).

Definition particleData : BlackHoleProps -> Rand -> Disk.t * Rand := particleData_n 2000.

(** ** The accretion-disk loop of [useFrame] *)

(** The new [(x, y, z)] of a disk particle; the y slot is neither read nor
    written by the loop. *)
Definition disk_update (p : Vec3) : Vec3 :=
  let x := vx p in
  let z := vz p in
  let angle := atan2 z x in
  let radius := sqrt (x * x + z * z) in
  let speed := 0.5 / (radius * 0.1) in
  let newAngle := angle + speed * 0.01 in
  V3 (cos newAngle * radius) (vy p) (sin newAngle * radius).

Definition disk_iter (i : nat) (positions : list R) : list R :=
  let i3 := (i * 3)%nat in
  let p' := disk_update (rd3 positions i3) in
  <[(i3 + 2)%nat := vz p']> (<[i3 := vx p']> positions).

Definition animate_disk (d : Disk.t) : Disk.t :=
  {| Disk.positions := for_loop (Disk.count d) disk_iter (Disk.positions d);
     Disk.colors := Disk.colors d;
     Disk.sizes := Disk.sizes d;
     Disk.count := Disk.count d |}.

Fixpoint disk_frames (n : nat) (d : Disk.t) : Disk.t :=
  match n with
  | O => d
  | S k => animate_disk (disk_frames k d)
  end.

(** ** Auxiliary notions of the properties *)

(** The stream a piece of code leaves behind is a suffix of the one it was
    given. *)
Definition rnd_suffix (rnd' rnd : Rand) : Prop := exists k, rnd' = rnd_drop k rnd.

(** The star stored by one iteration of the [starData] loop. *)
Definition spawn_star (P : BlackHoleProps) (rnd : Rand) : Star :=
  {| pos := shell_point (accretionDiskSize P) rnd;
     vel := V3 0 0 0;
     ssize := 0.2 + rnd 3%nat * 0.3;
     lifetime := rnd 5%nat * 100 |}.

(** The number of [Math.random()] calls the star loop has made in the
    current frame when it reaches star [i]: four for each earlier star found
    below the horizon, one for each other earlier star.  [d] is the buffer
    set at the start of the frame. *)
Fixpoint draws_before (P : BlackHoleProps) (d : Stars.t) (i : nat) : nat :=
  match i with
  | O => O
  | S k =>
      (draws_before P d k
       + if Rlt_dec (distanceToCenter (pos (read_star d k))) (size P * 1.5)
         then 4 else 1)%nat
  end.

(** A division that reports a zero divisor. *)
Definition checked_div (a b : R) : option R :=
  if Req_dec_T b 0 then None else Some (a / b).

(** The velocity computation of the infall branch with each of its five
    divisions checked, in program order: [forceMagnitude], [dirX], [dirY],
    [dirZ], and the argument of the square root in [orbitalSpeed]. *)
Definition infall_velocity_checked (P : BlackHoleProps) (p : Vec3) (d : R) (v : Vec3)
  : option Vec3 :=
  F ← checked_div (gravitationalStrength P * 0.5) (d * d);
  dirX ← checked_div (- vx p) d;
  dirY ← checked_div (- vy p) d;
  dirZ ← checked_div (- vz p) d;
  q ← checked_div F d;
  let dir := V3 dirX dirY dirZ in
  let v1 := vadd v (gravity_increment dir F) in
  let os := sqrt q * 2 in
  let v2 := V3 (vx v1 + vx (orbital_increment dir os))
               (vy v1)
               (vz v1 + vz (orbital_increment dir os)) in
  Some (damp v2).

(** Length of a velocity. *)
Definition magnitude (v : Vec3) : R := sqrt (dot v v).

(** The per-step increment of the infall branch at a fixed position. *)
Definition infall_increment (P : BlackHoleProps) (p : Vec3) : Vec3 :=
  let d := distanceToCenter p in
  let F := forceMagnitude P d in
  let dir := direction p d in
  vadd (gravity_increment dir F) (orbital_increment dir (orbitalSpeed F d)).

(** A star held at [p]: only its velocity slots go through the infall
    branch, [n] times. *)
Fixpoint held_velocity (P : BlackHoleProps) (p : Vec3) (n : nat) (v : Vec3) : Vec3 :=
  match n with
  | O => v
  | S k => infall_velocity P p (distanceToCenter p) (held_velocity P p k v)
  end.

(** The largest per-step velocity increment outside the horizon: the
    gravity and orbital increments at the horizon radius. *)
Definition kick_bound (P : BlackHoleProps) : R :=
  let h := size P * 1.5 in
  let Fh := gravitationalStrength P * 0.5 / (h * h) in
  Fh * 0.1 + sqrt (Fh / h).

Definition velocity_bound (P : BlackHoleProps) (v0 : Vec3) : R :=
  magnitude v0 + 99 * kick_bound P.

(** ** Concrete inputs *)

(** A small black hole with the default gravitational strength: horizon
    radius 0.18, spawn shell [[0.72, 1.08)]. *)
Definition smallProps : BlackHoleProps :=
  {| size := 0.12; accretionDiskSize := 0.36; gravitationalStrength := 0.5 |}.

(** Draws 0, 1/2, 7/9, 0, 0, ...: azimuth 0, polar angle PI/2, and a shell
    radius 7/9 of the way through the shell. *)
Definition sample_rnd : Rand :=
  fun k => match k with
           | 1%nat => 0.5
           | 2%nat => 7 / 9
           | _ => 0
           end.

(** Draws 0, 0.9, 0, 0, ... *)
Definition jitter_rnd : Rand :=
  fun k => match k with
           | 1%nat => 0.9
           | _ => 0
           end.

(** Draws 1/4, 1/2, 1/2, 0, 0, ...: azimuth PI/2, polar angle PI/2, radius
    in the middle of the shell. *)
Definition axis_rnd : Rand :=
  fun k => match k with
           | 0%nat => 0.25
           | 1%nat => 0.5
           | 2%nat => 0.5
           | _ => 0
           end.

(** A one-star buffer set, the star at (1, 0, 0) and at rest. *)
Definition one_star : Stars.t :=
  {| Stars.positions := [1; 0; 0];
     Stars.velocities := [0; 0; 0];
     Stars.sizes := [0.25];
     Stars.colors := [1; 1; 1];
     Stars.lifetimes := [7];
     Stars.count := 1 |}.

(** ** Further notions on the star simulation *)

(** The y component of [pos × vel]: the angular momentum of a star about the
    vertical axis through the centre. *)
Definition angular_momentum_y (p v : Vec3) : R := vz p * vx v - vx p * vz v.

(** The star of index [j] after [n] frames of a freshly initialised
    component. *)
Definition star_after (P : BlackHoleProps) (rnd : Rand) (n j : nat) : Star :=
  read_star (fst (frames P n (starData P rnd))) j.

(** The disk particle of index [j] after [n] frames. *)
Definition disk_after (P : BlackHoleProps) (rnd : Rand) (n j : nat) : Vec3 :=
  rd3 (Disk.positions (disk_frames n (fst (particleData P rnd)))) (j * 3).

(** The props of the two [<BlackHole>] elements of the explore page. *)
Definition exploreProps : BlackHoleProps :=
  {| size := 4; accretionDiskSize := 12; gravitationalStrength := 0.6 |}.

Definition featureProps : BlackHoleProps :=
  {| size := 6; accretionDiskSize := 18; gravitationalStrength := 0.8 |}.

(** ** Constellation *)

(** [lineGeometry]: for each connection [[from, to]], in order, the points
    [stars[from]] and [stars[to]] are pushed.  Spreading [stars[k]] for an
    index [k] past the end of [stars] throws; the failure is [None].  Star
    indices are natural numbers. *)
Definition push_connection (stars : list Vec3) (points : option (list Vec3))
    (c : nat * nat) : option (list Vec3) :=
  pts ← points;
  a ← stars !! c.1;
  b ← stars !! c.2;
  Some (pts ++ [a; b]).

Definition lineGeometry (stars : list Vec3) (connections : list (nat * nat))
  : option (list Vec3) :=
  fold_left (push_connection stars) connections (Some []).

(** [CONSTELLATIONS] *)
Module Constellations.
Record t := mk {
  stars : list Vec3;
  connections : list (nat * nat)
}.
End Constellations.

Definition orion : Constellations.t :=
  {| Constellations.stars :=
       [V3 0 2 0; V3 1 1.5 0; V3 (-1) 1.5 0;
        V3 0.5 0 0; V3 (-0.5) 0 0;
        V3 1 (-2) 0; V3 (-1) (-2) 0];
     Constellations.connections :=
       [(0, 1); (0, 2); (1, 3); (2, 4); (3, 4); (3, 5); (4, 6)]%nat |}.

Definition bigDipper : Constellations.t :=
  {| Constellations.stars :=
       [V3 0 0 0; V3 1.5 0.3 0; V3 3 0.5 0; V3 4.5 0.2 0;
        V3 5.5 (-0.5) 0; V3 5.3 (-1.5) 0; V3 4 (-1.3) 0];
     Constellations.connections :=
       [(0, 1); (1, 2); (2, 3); (3, 4); (4, 5); (5, 6); (6, 3)]%nat |}.

Definition cassiopeia : Constellations.t :=
  {| Constellations.stars :=
       [V3 0 0 0; V3 1 1 0; V3 2 0.5 0; V3 3 1.5 0; V3 4 0.8 0];
     Constellations.connections :=
       [(0, 1); (1, 2); (2, 3); (3, 4)]%nat |}.

Definition scorpius : Constellations.t :=
  {| Constellations.stars :=
       [V3 0 0 0; V3 0.5 (-1) 0; V3 1 (-2) 0; V3 1.8 (-2.5) 0;
        V3 2.5 (-2) 0; V3 3 (-1.5) 0;
        V3 (-0.5) 0.5 0; V3 0.5 0.5 0];
     Constellations.connections :=
       [(0, 1); (1, 2); (2, 3); (3, 4); (4, 5); (0, 6); (0, 7)]%nat |}.

Definition CONSTELLATIONS : list Constellations.t :=
  [orion; bigDipper; cassiopeia; scorpius].

(** The two slots of the constellation's group that its [useFrame] callback
    assigns: [position.y] and the uniform scale. *)
Record Group := mkGroup { group_y : R; group_scale : R }.

(** One call of the constellation's [useFrame] callback at elapsed time [t]:
    the height is always assigned, the scale only while hovered. *)
Definition constellation_frame (positionY scale : R) (hovered : bool) (t : R)
    (g : Group) : Group :=
  {| group_y := positionY + sin (t * 0.5) * 0.3;
     group_scale :=
       if hovered then scale * (1 + sin (t * 3) * 0.05) else group_scale g |}.

(** Successive calls, each with the hover state and the clock value it sees. *)
Definition constellation_frames (positionY scale : R) (calls : list (bool * R))
    (g : Group) : Group :=
  fold_left (fun g c => constellation_frame positionY scale c.1 c.2 g) calls g.

(** ** AsteroidField *)

Module Asteroid.
Record t := mk {
  angle : R;
  distance : R;
  height : R;
  scale : R;
  rotationSpeed : R;
  rotationAxisX : R;
  rotationAxisY : R;
  rotationAxisZ : R;
  orbitSpeed : R;
  wobbleSpeed : R;
  wobbleAmount : R
}.
End Asteroid.

(** The object built by the callback of [Array.from]: eleven draws, in the
    order of the properties. *)
Definition new_asteroid (radius thickness : R) (rnd : Rand) : Asteroid.t :=
  {| Asteroid.angle := rnd 0%nat * PI * 2;
     Asteroid.distance := radius + (rnd 1%nat - 0.5) * thickness;
     Asteroid.height := (rnd 2%nat - 0.5) * thickness * 0.5;
     Asteroid.scale := 0.08 + rnd 3%nat * 0.6;
     Asteroid.rotationSpeed := (rnd 4%nat - 0.5) * 3;
     Asteroid.rotationAxisX := rnd 5%nat - 0.5;
     Asteroid.rotationAxisY := rnd 6%nat - 0.5;
     Asteroid.rotationAxisZ := rnd 7%nat - 0.5;
     Asteroid.orbitSpeed := 0.015 + rnd 8%nat * 0.04;
     Asteroid.wobbleSpeed := rnd 9%nat * 2 + 1;
     Asteroid.wobbleAmount := rnd 10%nat * 0.3 |}.

(** [Array.from({ length: count }, () => ...)] *)
Fixpoint asteroidData (count : nat) (radius thickness : R) (rnd : Rand)
  : list Asteroid.t * Rand :=
  match count with
  | O => ([], rnd)
  | S k =>
      let a := new_asteroid radius thickness rnd in
      let '(rest, rnd') := asteroidData k radius thickness (rnd_drop 11 rnd) in
      (a :: rest, rnd')
  end.

(** [dummy.position.set(...)] for one asteroid at elapsed time [t]. *)
Definition asteroid_position (position : Vec3) (rotationSpeed : R)
    (a : Asteroid.t) (t : R) : Vec3 :=
  let angle := Asteroid.angle a + t * Asteroid.orbitSpeed a * rotationSpeed in
  let wobbleX := sin (t * Asteroid.wobbleSpeed a) * Asteroid.wobbleAmount a in
  let wobbleY := cos (t * Asteroid.wobbleSpeed a * 0.7) * Asteroid.wobbleAmount a in
  V3 (cos angle * Asteroid.distance a + vx position + wobbleX)
     (Asteroid.height a + sin (t * Asteroid.rotationSpeed a * 0.5) * 0.3
      + vy position + wobbleY)
     (sin angle * Asteroid.distance a + vz position).

(** [dummy.scale.setScalar(asteroid.scale * scaleVariation)] *)
Definition asteroid_scale (a : Asteroid.t) (t : R) : R :=
  let scaleVariation := 1 + sin (t * Asteroid.wobbleSpeed a) * 0.05 in
  Asteroid.scale a * scaleVariation.

(** The larger asteroids of the render:
    [Math.min(20, Math.floor(count / 10))] of them, the one of index [i] at
    angle [(i / 20) * Math.PI * 2]. *)
Definition large_asteroid_count (count : nat) : nat := Nat.min 20 (count / 10).

Definition large_asteroid_angle (i : nat) : R := INR i / 20 * PI * 2.

(** * Properties *)

(** ** Buffers *)

Lemma rd_insert_eq (a : list R) (i : nat) (v : R) :
  (i < length a)%nat -> rd (<[i := v]> a) i = v.
Proof. intros Hi. unfold rd. by rewrite list_lookup_insert_eq. Qed.

Lemma rd_insert_ne (a : list R) (i j : nat) (v : R) :
  i <> j -> rd (<[i := v]> a) j = rd a j.
Proof. intros Hij. unfold rd. by rewrite list_lookup_insert_ne. Qed.

Lemma length_wr3 (a : list R) (i3 : nat) (v : Vec3) :
  length (wr3 a i3 v) = length a.
Proof. unfold wr3. by rewrite !length_insert. Qed.

Lemma rd3_wr3_eq (a : list R) (i3 : nat) (v : Vec3) :
  (i3 + 2 < length a)%nat -> rd3 (wr3 a i3 v) i3 = v.
Proof.
  intros Hi. destruct v as [x y z]. unfold rd3, wr3. cbn [vx vy vz]. f_equal.
  - rewrite !rd_insert_ne by lia. apply rd_insert_eq. lia.
  - rewrite rd_insert_ne by lia. apply rd_insert_eq. rewrite length_insert. lia.
  - apply rd_insert_eq. rewrite !length_insert. lia.
Qed.

Lemma rd3_wr3_ne (a : list R) (i j : nat) (v : Vec3) :
  i <> j -> rd3 (wr3 a (i * 3) v) (j * 3) = rd3 a (j * 3).
Proof.
  intros Hij. unfold rd3, wr3. f_equal; rewrite !rd_insert_ne by lia; reflexivity.
Qed.

Lemma for_loop_S {S : Type} (n : nat) (body : nat -> S -> S) (s : S) :
  for_loop (Datatypes.S n) body s = body n (for_loop n body s).
Proof.
  unfold for_loop. rewrite seq_S, fold_left_app. reflexivity.
Qed.

(** ** The star buffers under the loop body *)

Lemma write_star_wf (d : Stars.t) (i : nat) (s : Star) :
  stars_wf d -> stars_wf (write_star d i s).
Proof.
  unfold stars_wf, write_star. cbn. rewrite !length_wr3, !length_insert. tauto.
Qed.

Lemma read_write_star_eq (d : Stars.t) (i : nat) (s : Star) :
  stars_wf d -> (i < Stars.count d)%nat -> read_star (write_star d i s) i = s.
Proof.
  intros (Hp & Hv & Hs & _ & Hl) Hi. destruct s as [p v sz l].
  unfold read_star, write_star. cbn. f_equal.
  - apply rd3_wr3_eq. lia.
  - apply rd3_wr3_eq. lia.
  - apply rd_insert_eq. lia.
  - apply rd_insert_eq. lia.
Qed.

Lemma read_write_star_ne (d : Stars.t) (i j : nat) (s : Star) :
  i <> j -> read_star (write_star d i s) j = read_star d j.
Proof.
  intros Hij. unfold read_star, write_star. cbn.
  rewrite !rd3_wr3_ne, !rd_insert_ne by assumption. reflexivity.
Qed.

Lemma star_iter_count (P : BlackHoleProps) (i : nat) (st : Stars.t * Rand) :
  Stars.count (fst (star_iter P i st)) = Stars.count (fst st).
Proof.
  destruct st as [d rnd]. unfold star_iter.
  destruct (star_update P rnd (read_star d i)). reflexivity.
Qed.

Lemma star_iter_colors (P : BlackHoleProps) (i : nat) (st : Stars.t * Rand) :
  Stars.colors (fst (star_iter P i st)) = Stars.colors (fst st).
Proof.
  destruct st as [d rnd]. unfold star_iter.
  destruct (star_update P rnd (read_star d i)). reflexivity.
Qed.

Lemma star_iter_wf (P : BlackHoleProps) (i : nat) (st : Stars.t * Rand) :
  stars_wf (fst st) -> stars_wf (fst (star_iter P i st)).
Proof.
  destruct st as [d rnd]. unfold star_iter.
  destruct (star_update P rnd (read_star d i)). apply write_star_wf.
Qed.

Lemma star_iter_lengths (P : BlackHoleProps) (i : nat) (st : Stars.t * Rand) :
  let d := fst st in
  let d' := fst (star_iter P i st) in
  length (Stars.positions d') = length (Stars.positions d) /\
  length (Stars.velocities d') = length (Stars.velocities d) /\
  length (Stars.sizes d') = length (Stars.sizes d) /\
  length (Stars.lifetimes d') = length (Stars.lifetimes d).
Proof.
  destruct st as [d rnd]. unfold star_iter.
  destruct (star_update P rnd (read_star d i)). cbn.
  rewrite !length_wr3, !length_insert. tauto.
Qed.

Lemma rnd_drop_drop (a b : nat) (rnd : Rand) :
  rnd_drop a (rnd_drop b rnd) = rnd_drop (b + a) rnd.
Proof.
  unfold rnd_drop. apply functional_extensionality. intros k. f_equal. lia.
Qed.

Lemma rnd_suffix_refl (rnd : Rand) : rnd_suffix rnd rnd.
Proof. exists 0%nat. apply functional_extensionality. intros k. reflexivity. Qed.

Lemma rnd_suffix_trans (r1 r2 r3 : Rand) :
  rnd_suffix r3 r2 -> rnd_suffix r2 r1 -> rnd_suffix r3 r1.
Proof.
  intros [a ->] [b ->]. exists (b + a)%nat. apply rnd_drop_drop.
Qed.

Lemma rnd_suffix_ok (rnd' rnd : Rand) :
  rnd_suffix rnd' rnd -> rnd_ok rnd -> rnd_ok rnd'.
Proof. intros [k ->] Hok n. apply Hok. Qed.

Lemma star_update_suffix (P : BlackHoleProps) (rnd : Rand) (s : Star) :
  rnd_suffix (snd (star_update P rnd s)) rnd.
Proof.
  unfold star_update. destruct (Rlt_dec _ _); cbn; eexists; reflexivity.
Qed.

Lemma star_iter_suffix (P : BlackHoleProps) (i : nat) (st : Stars.t * Rand) :
  rnd_suffix (snd (star_iter P i st)) (snd st).
Proof.
  destruct st as [d rnd]. unfold star_iter.
  pose proof (star_update_suffix P rnd (read_star d i)) as H.
  destruct (star_update P rnd (read_star d i)). exact H.
Qed.

Lemma star_iter_other (P : BlackHoleProps) (i j : nat) (st : Stars.t * Rand) :
  i <> j -> read_star (fst (star_iter P i st)) j = read_star (fst st) j.
Proof.
  intros Hij. destruct st as [d rnd]. unfold star_iter.
  destruct (star_update P rnd (read_star d i)). cbn.
  by apply read_write_star_ne.
Qed.

Lemma star_iter_self (P : BlackHoleProps) (i : nat) (st : Stars.t * Rand) :
  stars_wf (fst st) -> (i < Stars.count (fst st))%nat ->
  read_star (fst (star_iter P i st)) i
  = fst (star_update P (snd st) (read_star (fst st) i)).
Proof.
  intros Hwf Hi. destruct st as [d rnd]. unfold star_iter. cbn [fst snd] in *.
  destruct (star_update P rnd (read_star d i)). cbn.
  by apply read_write_star_eq.
Qed.

(** What any run of loop iterations over the indices [l] preserves. *)
Lemma star_fold_inv (P : BlackHoleProps) (l : list nat) (st : Stars.t * Rand) :
  let st' := fold_left (fun acc i => star_iter P i acc) l st in
  (stars_wf (fst st) -> stars_wf (fst st')) /\
  Stars.count (fst st') = Stars.count (fst st) /\
  Stars.colors (fst st') = Stars.colors (fst st) /\
  (length (Stars.positions (fst st')) = length (Stars.positions (fst st)) /\
   length (Stars.velocities (fst st')) = length (Stars.velocities (fst st)) /\
   length (Stars.sizes (fst st')) = length (Stars.sizes (fst st)) /\
   length (Stars.lifetimes (fst st')) = length (Stars.lifetimes (fst st))) /\
  rnd_suffix (snd st') (snd st) /\
  (forall j, ~ In j l -> read_star (fst st') j = read_star (fst st) j).
Proof.
  revert st. induction l as [|i l IH]; intros st; cbn zeta.
  - cbn. split; [tauto|]. do 3 (split; [tauto|]). split; [apply rnd_suffix_refl | reflexivity].
  - cbn [fold_left].
    destruct (IH (star_iter P i st)) as (Hwf & Hc & Hcol & Hlen & Hsuf & Hoth).
    pose proof (star_iter_lengths P i st) as Hl1. cbn zeta in Hl1.
    split; [|split; [|split; [|split; [|split]]]].
    + intros H. apply Hwf. by apply star_iter_wf.
    + rewrite Hc. apply star_iter_count.
    + rewrite Hcol. apply star_iter_colors.
    + destruct Hlen as (-> & -> & -> & ->). exact Hl1.
    + eapply rnd_suffix_trans; [exact Hsuf | apply star_iter_suffix].
    + intros j Hj. rewrite Hoth.
      * apply star_iter_other. intros ->. apply Hj. by left.
      * intros Hin. apply Hj. by right.
Qed.

(** After one frame, star [j] holds the loop body's result on what it held
    before, computed with the part of the random stream the loop had reached. *)
Lemma animate_stars_at (P : BlackHoleProps) (d : Stars.t) (rnd : Rand) (j : nat) :
  stars_wf d -> (j < Stars.count d)%nat ->
  exists rnd', rnd_suffix rnd' rnd /\
    read_star (fst (animate_stars P (d, rnd))) j
    = fst (star_update P rnd' (read_star d j)).
Proof.
  intros Hwf Hj. unfold animate_stars, for_loop. cbn [fst].
  replace (Stars.count d) with (j + Datatypes.S (Stars.count d - j - 1))%nat by lia.
  rewrite seq_app, fold_left_app. cbn [seq fold_left].
  set (st1 := fold_left _ (seq 0 j) (d, rnd)).
  destruct (star_fold_inv P (seq 0 j) (d, rnd)) as (Hwf1 & Hc1 & _ & _ & Hsuf1 & Hoth1).
  fold st1 in Hwf1, Hc1, Hsuf1, Hoth1. cbn [fst snd] in *.
  destruct (star_fold_inv P (seq (Datatypes.S j) (Stars.count d - j - 1)) (star_iter P j st1))
    as (_ & _ & _ & _ & _ & Hoth2).
  exists (snd st1). split; [exact Hsuf1|].
  change (0 + j)%nat with j.
  rewrite Hoth2.
  - rewrite star_iter_self; [| by apply Hwf1 | lia].
    rewrite Hoth1; [reflexivity|]. rewrite in_seq. lia.
  - rewrite in_seq. lia.
Qed.

Lemma animate_stars_wf (P : BlackHoleProps) (st : Stars.t * Rand) :
  stars_wf (fst st) -> stars_wf (fst (animate_stars P st)).
Proof. apply (star_fold_inv P (seq 0 (Stars.count (fst st))) st). Qed.

Lemma animate_stars_count (P : BlackHoleProps) (st : Stars.t * Rand) :
  Stars.count (fst (animate_stars P st)) = Stars.count (fst st).
Proof. apply (star_fold_inv P (seq 0 (Stars.count (fst st))) st). Qed.

Lemma animate_stars_suffix (P : BlackHoleProps) (st : Stars.t * Rand) :
  rnd_suffix (snd (animate_stars P st)) (snd st).
Proof. apply (star_fold_inv P (seq 0 (Stars.count (fst st))) st). Qed.

(** ** starData: what the initialiser leaves in the buffers *)

Lemma stars_alloc_wf (n : nat) : stars_wf (stars_alloc n).
Proof. unfold stars_wf, stars_alloc. cbn. rewrite !length_replicate. tauto. Qed.

Lemma starData_iter_wf (P : BlackHoleProps) (i : nat) (st : Stars.t * Rand) :
  stars_wf (fst st) -> stars_wf (fst (starData_iter P i st)).
Proof.
  destruct st as [d rnd]. unfold stars_wf, starData_iter. cbn.
  rewrite !length_wr3, !length_insert. tauto.
Qed.

Lemma starData_iter_other (P : BlackHoleProps) (i j : nat) (st : Stars.t * Rand) :
  i <> j -> read_star (fst (starData_iter P i st)) j = read_star (fst st) j.
Proof.
  intros Hij. destruct st as [d rnd]. unfold read_star, starData_iter. cbn.
  rewrite !rd3_wr3_ne, !rd_insert_ne by assumption. reflexivity.
Qed.

Lemma starData_iter_self (P : BlackHoleProps) (i : nat) (st : Stars.t * Rand) :
  stars_wf (fst st) -> (i < Stars.count (fst st))%nat ->
  read_star (fst (starData_iter P i st)) i = spawn_star P (snd st).
Proof.
  destruct st as [d rnd]. intros (Hp & Hv & Hs & _ & Hl) Hi. cbn [fst snd] in *.
  unfold read_star, starData_iter, spawn_star. cbn. f_equal.
  - apply rd3_wr3_eq. lia.
  - apply rd3_wr3_eq. lia.
  - apply rd_insert_eq. lia.
  - apply rd_insert_eq. lia.
Qed.

Lemma starData_loop (P : BlackHoleProps) (n k : nat) (rnd : Rand) :
  let st := for_loop k (starData_iter P) (stars_alloc n, rnd) in
  stars_wf (fst st) /\
  Stars.count (fst st) = n /\
  snd st = rnd_drop (k * 6) rnd /\
  (forall j, (j < k)%nat -> (j < n)%nat ->
     read_star (fst st) j = spawn_star P (rnd_drop (j * 6) rnd)).
Proof.
  induction k as [|k IH]; cbn zeta.
  - unfold for_loop. cbn. split; [apply stars_alloc_wf|]. split; [reflexivity|].
    split; [apply functional_extensionality; intros m; reflexivity | intros; lia].
  - rewrite for_loop_S. cbn zeta in IH.
    set (st := for_loop k (starData_iter P) (stars_alloc n, rnd)) in *.
    destruct IH as (Hwf & Hc & Hr & Hrd).
    split; [by apply starData_iter_wf|].
    split; [destruct st; exact Hc|].
    split.
    + destruct st as [d r]. cbn in *. rewrite Hr, rnd_drop_drop. f_equal. lia.
    + intros j Hj Hn. destruct (decide (j = k)) as [->|Hne].
      * rewrite starData_iter_self; [by rewrite Hr | exact Hwf | lia].
      * rewrite starData_iter_other by auto. apply Hrd; lia.
Qed.

Lemma starData_n_wf (n : nat) (P : BlackHoleProps) (rnd : Rand) :
  stars_wf (fst (starData_n n P rnd)) /\ Stars.count (fst (starData_n n P rnd)) = n.
Proof. split; apply (starData_loop P n n rnd). Qed.

Lemma starData_n_at (n : nat) (P : BlackHoleProps) (rnd : Rand) (j : nat) :
  (j < n)%nat ->
  read_star (fst (starData_n n P rnd)) j = spawn_star P (rnd_drop (j * 6) rnd).
Proof. intros Hj. by apply (starData_loop P n n rnd). Qed.

Lemma starData_n_suffix (n : nat) (P : BlackHoleProps) (rnd : Rand) :
  rnd_suffix (snd (starData_n n P rnd)) rnd.
Proof. exists (n * 6)%nat. apply (starData_loop P n n rnd). Qed.

Lemma frames_wf (P : BlackHoleProps) (n : nat) (st : Stars.t * Rand) :
  stars_wf (fst st) ->
  stars_wf (fst (frames P n st)) /\
  Stars.count (fst (frames P n st)) = Stars.count (fst st) /\
  rnd_suffix (snd (frames P n st)) (snd st).
Proof.
  intros Hwf. induction n as [|n (IH1 & IH2 & IH3)]; cbn [frames].
  - split; [exact Hwf|]. split; [reflexivity | apply rnd_suffix_refl].
  - split; [by apply animate_stars_wf|].
    split; [by rewrite animate_stars_count|].
    eapply rnd_suffix_trans; [apply animate_stars_suffix | exact IH3].
Qed.

(** ** The spawn shell *)

Lemma sin_cos_sq (a : R) : sin a * sin a + cos a * cos a = 1.
Proof. pose proof (sin2_cos2 a) as H. unfold Rsqr in H. exact H. Qed.

Lemma distance_on_x_axis (x : R) : 0 <= x -> distanceToCenter (V3 x 0 0) = x.
Proof.
  intros Hx. unfold distanceToCenter. cbn [vx vy vz].
  replace (x * x + 0 * 0 + 0 * 0) with (x * x) by ring. by apply sqrt_square.
Qed.

(** A point of the shell is exactly [radius] away from the centre. *)
Lemma distance_shell_point (A : R) (rnd : Rand) :
  0 <= shell_radius A rnd ->
  distanceToCenter (shell_point A rnd) = shell_radius A rnd.
Proof.
  intros Hr. unfold distanceToCenter, shell_point. cbn [vx vy vz].
  set (r := shell_radius A rnd) in *.
  set (phi := shell_phi rnd). set (theta := shell_theta rnd).
  replace (r * sin phi * cos theta * (r * sin phi * cos theta) +
           r * sin phi * sin theta * (r * sin phi * sin theta) +
           r * cos phi * (r * cos phi))
    with (r * r * (sin phi * sin phi * (sin theta * sin theta + cos theta * cos theta)
                   + cos phi * cos phi)) by ring.
  rewrite sin_cos_sq, Rmult_1_r, sin_cos_sq, Rmult_1_r.
  by apply sqrt_square.
Qed.

Lemma shell_radius_bounds (A : R) (rnd : Rand) :
  0 < A -> 0 <= rnd 2%nat < 1 ->
  A * 2 <= shell_radius A rnd < A * 3.
Proof. intros HA [H0 H1]. unfold shell_radius. nra. Qed.

Lemma distance_shell_bounds (A : R) (rnd : Rand) :
  0 < A -> rnd_ok rnd ->
  A * 2 <= distanceToCenter (shell_point A rnd) < A * 3.
Proof.
  intros HA Hok. pose proof (shell_radius_bounds A rnd HA (Hok 2%nat)) as Hb.
  rewrite distance_shell_point; [exact Hb | lra].
Qed.

(** C5. The spawn-shell sampler, used by both [starData] and the respawn
    branch, draws the azimuth as [2 PI v] and the polar angle [phi] with
    [cos phi = 2 u - 1], where [v] and [u] are the first two draws: the
    cosine of the polar angle (the height [z / radius]), not the angle, is
    affine in the uniform draw.  The position is
    [radius (sin phi cos theta, sin phi sin theta, cos phi)], with
    [phi] in [[0, PI]] and [theta] in [[0, 2 PI)]. *)
Theorem shell_sampler_uniform_in_cosine (P : BlackHoleProps) (rnd : Rand) :
  rnd_ok rnd ->
  let v := rnd 0%nat in
  let u := rnd 1%nat in
  let theta := shell_theta rnd in
  let phi := shell_phi rnd in
  let radius := shell_radius (accretionDiskSize P) rnd in
  cos phi = 2 * u - 1 /\
  theta = 2 * PI * v /\
  0 <= phi <= PI /\
  0 <= theta < 2 * PI /\
  shell_point (accretionDiskSize P) rnd
    = V3 (radius * sin phi * cos theta) (radius * sin phi * sin theta) (radius * cos phi) /\
  vz (shell_point (accretionDiskSize P) rnd) = radius * (2 * u - 1) /\
  pos (spawn_star P rnd) = shell_point (accretionDiskSize P) rnd /\
  pos (fst (respawn P rnd)) = shell_point (accretionDiskSize P) rnd.
Proof.
  intros Hok. cbn zeta.
  pose proof (Hok 0%nat) as [Hv0 Hv1]. pose proof (Hok 1%nat) as [Hu0 Hu1].
  assert (Hc : cos (shell_phi rnd) = 2 * rnd 1%nat - 1).
  { unfold shell_phi. rewrite cos_acos by lra. ring. }
  split; [exact Hc|].
  split; [unfold shell_theta; ring|].
  split; [unfold shell_phi; apply acos_bound|].
  split.
  { unfold shell_theta. pose proof PI_RGT_0. nra. }
  split; [reflexivity|].
  split; [unfold shell_point; cbn [vz]; by rewrite Hc|].
  split; reflexivity.
Qed.

Lemma sample_rnd_ok : rnd_ok sample_rnd.
Proof. intros [|[|[|k]]]; cbn; lra. Qed.

Lemma shell_sampler_uniform_in_cosine_witness :
  rnd_ok sample_rnd /\ cos (shell_phi sample_rnd) = 2 * sample_rnd 1%nat - 1.
Proof.
  split; [exact sample_rnd_ok|].
  exact (proj1 (shell_sampler_uniform_in_cosine defaultProps sample_rnd sample_rnd_ok)).
Defined.

(** ** The two branches of the loop body *)

Lemma star_update_below (P : BlackHoleProps) (rnd : Rand) (s : Star) :
  distanceToCenter (pos s) < size P * 1.5 ->
  star_update P rnd s = respawn P rnd.
Proof. intros H. unfold star_update. destruct (Rlt_dec _ _); [reflexivity | contradiction]. Qed.

Lemma star_update_outside (P : BlackHoleProps) (rnd : Rand) (s : Star) :
  ~ distanceToCenter (pos s) < size P * 1.5 ->
  star_update P rnd s = infall P rnd s.
Proof. intros H. unfold star_update. destruct (Rlt_dec _ _); [contradiction | reflexivity]. Qed.

(** The draws a call of the loop body uses. *)
Lemma star_update_draws (P : BlackHoleProps) (rnd : Rand) (s : Star) :
  snd (star_update P rnd s)
  = rnd_drop (if Rlt_dec (distanceToCenter (pos s)) (size P * 1.5) then 4 else 1) rnd.
Proof. unfold star_update. destruct (Rlt_dec _ _); reflexivity. Qed.

(** When the loop reaches star [i] it has used [draws_before P d i] draws. *)
Lemma star_prefix_stream (P : BlackHoleProps) (d : Stars.t) (rnd : Rand) (i : nat) :
  snd (for_loop i (star_iter P) (d, rnd)) = rnd_drop (draws_before P d i) rnd.
Proof.
  induction i as [|i IH].
  - unfold for_loop. cbn. apply functional_extensionality. intros k. reflexivity.
  - rewrite for_loop_S.
    destruct (star_fold_inv P (seq 0 i) (d, rnd)) as (_ & _ & _ & _ & _ & Hoth).
    fold (for_loop i (star_iter P) (d, rnd)) in Hoth.
    specialize (Hoth i). cbn [fst] in Hoth. rewrite in_seq in Hoth.
    specialize (Hoth ltac:(lia)).
    destruct (for_loop i (star_iter P) (d, rnd)) as [d1 r1]. cbn [fst snd] in *.
    unfold star_iter.
    pose proof (star_update_draws P r1 (read_star d1 i)) as Hd.
    destruct (star_update P r1 (read_star d1 i)) as [s' r']. cbn [snd] in *.
    rewrite Hd, Hoth, IH, rnd_drop_drop. reflexivity.
Qed.

(** After one frame, star [j] holds the loop body's result on what it held
    before, computed with the random stream at the point the loop had
    reached. *)
Lemma animate_stars_at_exact (P : BlackHoleProps) (d : Stars.t) (rnd : Rand) (j : nat) :
  stars_wf d -> (j < Stars.count d)%nat ->
  read_star (fst (animate_stars P (d, rnd))) j
  = fst (star_update P (rnd_drop (draws_before P d j) rnd) (read_star d j)).
Proof.
  intros Hwf Hj. rewrite <- star_prefix_stream.
  unfold animate_stars, for_loop. cbn [fst].
  replace (Stars.count d) with (j + Datatypes.S (Stars.count d - j - 1))%nat at 1 by lia.
  rewrite seq_app, fold_left_app. cbn [seq fold_left]. change (0 + j)%nat with j.
  set (st1 := fold_left _ (seq 0 j) (d, rnd)).
  destruct (star_fold_inv P (seq 0 j) (d, rnd)) as (Hwf1 & Hc1 & _ & _ & _ & Hoth1).
  fold st1 in Hwf1, Hc1, Hoth1. cbn [fst snd] in *.
  destruct (star_fold_inv P (seq (Datatypes.S j) (Stars.count d - j - 1)) (star_iter P j st1))
    as (_ & _ & _ & _ & _ & Hoth2).
  rewrite Hoth2 by (rewrite in_seq; lia).
  rewrite star_iter_self; [| by apply Hwf1 | lia].
  rewrite Hoth1 by (rewrite in_seq; lia). reflexivity.
Qed.

(** C2. In one frame, star [i] is respawned exactly when its distance to
    the centre is below the event-horizon radius [size * 1.5], whatever its
    lifetime counter holds.  When it is, its new position is the point
    [radius (sin phi cos theta, sin phi sin theta, cos phi)] sampled from the
    next three draws of [Math.random()] at the point the loop has reached
    ([theta = 2 PI u0], [phi = acos (2 u1 - 1)], [radius = 2 A + u2 A]), at a
    distance [radius] in [[2 A, 3 A)] from the centre; its velocity is
    (0,0,0), its size is redrawn from the fourth draw in [[0.2, 0.5)] and its
    lifetime is 0; the four draws are the star's own.  When it is not, its
    lifetime is incremented by 1, its position is moved by the updated
    velocity instead of being resampled, and one draw is used. *)
Theorem respawn_iff_below_horizon
    (P : BlackHoleProps) (d : Stars.t) (rnd : Rand) (i : nat) :
  stars_wf d -> (i < Stars.count d)%nat -> rnd_ok rnd -> 0 < accretionDiskSize P ->
  let A := accretionDiskSize P in
  let s := read_star d i in
  let s' := read_star (fst (animate_stars P (d, rnd))) i in
  let u k := rnd (draws_before P d i + k)%nat in
  let theta := u 0%nat * PI * 2 in
  let phi := acos (u 1%nat * 2 - 1) in
  let radius := A * 2 + u 2%nat * A in
  (distanceToCenter (pos s) < size P * 1.5 ->
     pos s' = V3 (radius * sin phi * cos theta)
                 (radius * sin phi * sin theta)
                 (radius * cos phi) /\
     distanceToCenter (pos s') = radius /\
     A * 2 <= radius < A * 3 /\
     vel s' = V3 0 0 0 /\
     ssize s' = 0.2 + u 3%nat * 0.3 /\
     0.2 <= ssize s' < 0.5 /\
     lifetime s' = 0 /\
     draws_before P d (S i) = (draws_before P d i + 4)%nat) /\
  (~ distanceToCenter (pos s) < size P * 1.5 ->
     lifetime s' = lifetime s + 1 /\
     vel s' = infall_velocity P (pos s) (distanceToCenter (pos s)) (vel s) /\
     pos s' = vadd (pos s) (vel s') /\
     draws_before P d (S i) = (draws_before P d i + 1)%nat).
Proof.
  intros Hwf Hi Hok HA. cbn zeta.
  rewrite (animate_stars_at_exact P d rnd i Hwf Hi).
  set (r := rnd_drop (draws_before P d i) rnd).
  assert (Hok' : rnd_ok r).
  { eapply rnd_suffix_ok; [|exact Hok]. eexists; reflexivity. }
  split; intros Hd.
  - rewrite star_update_below by exact Hd. cbn [respawn fst pos vel ssize lifetime].
    pose proof (distance_shell_point (accretionDiskSize P) r) as Hdist.
    pose proof (shell_radius_bounds (accretionDiskSize P) r HA (Hok' 2%nat)) as Hrad.
    split; [reflexivity|].
    split; [apply Hdist; lra|].
    split; [exact Hrad|].
    split; [reflexivity|].
    split; [reflexivity|].
    split; [pose proof (Hok' 3%nat) as H3; unfold r, rnd_drop in H3 |- *; lra|].
    split; [reflexivity|].
    cbn [draws_before]. destruct (Rlt_dec _ _); [reflexivity | contradiction].
  - rewrite star_update_outside by exact Hd. cbn [infall fst pos vel lifetime].
    split; [reflexivity|]. split; [reflexivity|]. split; [reflexivity|].
    cbn [draws_before]. destruct (Rlt_dec _ _); [contradiction | reflexivity].
Qed.

Lemma one_star_wf : stars_wf one_star.
Proof. unfold stars_wf. cbn. tauto. Qed.

Lemma respawn_iff_below_horizon_witness :
  let s' := read_star (fst (animate_stars defaultProps (one_star, sample_rnd))) 0 in
  distanceToCenter (pos (read_star one_star 0)) < size defaultProps * 1.5 /\
  vel s' = V3 0 0 0 /\ lifetime s' = 0.
Proof.
  assert (Hd : distanceToCenter (pos (read_star one_star 0)) < size defaultProps * 1.5).
  { change (pos (read_star one_star 0)) with (V3 1 0 0).
    rewrite distance_on_x_axis by lra. cbn. lra. }
  assert (HA : 0 < accretionDiskSize defaultProps) by (cbn; lra).
  assert (Hi : (0 < Stars.count one_star)%nat) by (cbn; lia).
  pose proof (proj1 (respawn_iff_below_horizon defaultProps one_star sample_rnd 0
                       one_star_wf Hi sample_rnd_ok HA) Hd) as H.
  cbn zeta. split; [exact Hd|]. split; apply H.
Defined.

(** ** Distance to the centre over the frames *)

(** C1, as amended.  At initial spawn every star is at a distance in
    [[2 A, 3 A)] from the centre, and so is, right after the frame, every
    star that any later frame finds below the event-horizon radius
    [size * 1.5]. *)
Theorem spawn_and_respawn_within_shell (P : BlackHoleProps) (rnd : Rand) :
  rnd_ok rnd -> 0 < accretionDiskSize P ->
  let A := accretionDiskSize P in
  (forall j, (j < 500)%nat ->
     A * 2 <= distanceToCenter (pos (read_star (fst (starData P rnd)) j)) < A * 3) /\
  (forall n j, (j < 500)%nat ->
     let st := frames P n (starData P rnd) in
     distanceToCenter (pos (read_star (fst st) j)) < size P * 1.5 ->
     A * 2 <= distanceToCenter (pos (read_star (fst (animate_stars P st)) j)) < A * 3).
Proof.
  intros Hok HA. cbn zeta. split.
  - intros j Hj. unfold starData. rewrite starData_n_at by exact Hj. cbn [pos spawn_star].
    apply distance_shell_bounds; [exact HA|].
    eapply rnd_suffix_ok; [|exact Hok]. eexists; reflexivity.
  - intros n j Hj Hbelow.
    destruct (starData_n_wf 500 P rnd) as [Hwf0 Hc0].
    destruct (frames_wf P n (starData P rnd) Hwf0) as (Hwf & Hc & Hsuf).
    set (st := frames P n (starData P rnd)) in *.
    assert (Hj' : (j < Stars.count (fst st))%nat).
    { rewrite Hc. unfold starData. rewrite Hc0. exact Hj. }
    destruct st as [d r]. cbn [fst snd] in *.
    destruct (animate_stars_at P d r j Hwf Hj') as (r' & Hsuf' & ->).
    rewrite star_update_below by exact Hbelow. cbn [fst respawn pos].
    apply distance_shell_bounds; [exact HA|].
    eapply rnd_suffix_ok; [exact Hsuf'|].
    eapply rnd_suffix_ok; [exact Hsuf|].
    eapply rnd_suffix_ok; [apply starData_n_suffix | exact Hok].
Qed.

Lemma spawn_and_respawn_within_shell_witness :
  rnd_ok sample_rnd /\ 0 < accretionDiskSize defaultProps /\
  accretionDiskSize defaultProps * 2
    <= distanceToCenter (pos (read_star (fst (starData defaultProps sample_rnd)) 0))
    < accretionDiskSize defaultProps * 3.
Proof.
  assert (HA : 0 < accretionDiskSize defaultProps) by (cbn; lra).
  split; [exact sample_rnd_ok|]. split; [exact HA|].
  apply (proj1 (spawn_and_respawn_within_shell defaultProps sample_rnd sample_rnd_ok HA)).
  lia.
Defined.

(** With the draws 0, 1/2, 7/9 the first star is spawned at (1, 0, 0). *)
Lemma small_spawn_pos : shell_point 0.36 (rnd_drop 0 sample_rnd) = V3 1 0 0.
Proof.
  unfold shell_point, shell_theta, shell_phi, shell_radius, rnd_drop. cbn [Nat.add sample_rnd].
  replace (0 * PI * 2) with 0 by ring.
  replace (0.5 * 2 - 1) with 0 by lra.
  rewrite acos_0, sin_PI2, cos_PI2, sin_0, cos_0.
  f_equal; lra.
Qed.

(** One infall step from (1, 0, 0) at rest: the star lands on
    (0.97525, 0, -0.495). *)
Lemma small_first_step (rnd : Rand) (sz l : R) :
  pos (fst (star_update smallProps rnd
              {| pos := V3 1 0 0; vel := V3 0 0 0; ssize := sz; lifetime := l |}))
  = V3 0.97525 0 (-0.495).
Proof.
  assert (Hd : distanceToCenter (V3 1 0 0) = 1) by (apply distance_on_x_axis; lra).
  rewrite star_update_outside by (cbn [pos]; rewrite Hd; cbn; lra).
  unfold infall. cbn [fst pos vel]. rewrite Hd.
  unfold infall_velocity, forceMagnitude, orbitalSpeed, direction,
    gravity_increment, orbital_increment, damp, vadd. cbn.
  replace (0.5 * 0.5 / (1 * 1) / 1) with (0.5 * 0.5) by lra.
  rewrite sqrt_square by lra.
  f_equal; lra.
Qed.

(** On the small black hole, the first star, spawned on the shell at
    distance 1, is farther than [3 A = 1.08] from the centre after the first
    frame. *)
Lemma small_star_leaves_shell :
  let P := smallProps in
  let after := read_star (fst (frames P 1 (starData P sample_rnd))) 0 in
  rnd_ok sample_rnd /\
  0 < size P /\ size P * 1.5 < accretionDiskSize P * 2 /\
  0 < gravitationalStrength P /\
  accretionDiskSize P * 3 < distanceToCenter (pos after).
Proof.
  cbn zeta. split; [exact sample_rnd_ok|].
  split; [cbn; lra|]. split; [cbn; lra|]. split; [cbn; lra|].
  destruct (starData_n_wf 500 smallProps sample_rnd) as [Hwf Hc].
  pose proof (starData_n_at 500 smallProps sample_rnd 0 ltac:(lia)) as Hs.
  cbn [frames]. unfold starData.
  destruct (starData_n 500 smallProps sample_rnd) as [d r]. cbn [fst] in Hwf, Hc, Hs.
  destruct (animate_stars_at smallProps d r 0 Hwf ltac:(lia)) as (r' & _ & ->).
  change (0 * 6)%nat with 0%nat in Hs.
  rewrite Hs. unfold spawn_star. cbn [accretionDiskSize smallProps].
  rewrite small_spawn_pos, small_first_step.
  unfold distanceToCenter. cbn.
  assert (Hlt : sqrt (1.08 * 1.08) < sqrt (0.97525 * 0.97525 + 0 * 0 + -0.495 * -0.495)).
  { apply sqrt_lt_1_alt. lra. }
  rewrite sqrt_square in Hlt by lra. lra.
Qed.

(** *** A star on the y axis falls through the horizon *)

Lemma axis_rnd_ok : rnd_ok axis_rnd.
Proof. intros [|[|[|k]]]; cbn; lra. Qed.

Lemma distance_on_y_axis (y : R) : 0 <= y -> distanceToCenter (V3 0 y 0) = y.
Proof.
  intros Hy. unfold distanceToCenter. cbn [vx vy vz].
  replace (0 * 0 + y * y + 0 * 0) with (y * y) by ring. by apply sqrt_square.
Qed.

(** With the default props the first star is spawned at (0, 20, 0). *)
Lemma axis_spawn_pos : shell_point 8 (rnd_drop 0 axis_rnd) = V3 0 20 0.
Proof.
  unfold shell_point, shell_theta, shell_phi, shell_radius, rnd_drop. cbn [Nat.add axis_rnd].
  replace (0.25 * PI * 2) with (PI / 2) by lra.
  replace (0.5 * 2 - 1) with 0 by lra.
  rewrite acos_0, sin_PI2, cos_PI2.
  f_equal; lra.
Qed.

(** On the y axis the orbital increment vanishes: the infall branch moves the
    star along the axis. *)
Lemma infall_on_y_axis (rnd : Rand) (y w sz l : R) :
  0 < y ->
  let w' := 0.99 * (w + 0.1 * (0.25 / (y * y))) in
  let s' := fst (infall defaultProps rnd (mkStar (V3 0 y 0) (V3 0 (- w) 0) sz l)) in
  pos s' = V3 0 (y - w') 0 /\ vel s' = V3 0 (- w') 0.
Proof.
  intros Hy. cbn zeta. unfold infall. cbn [fst pos vel].
  rewrite distance_on_y_axis by lra.
  unfold infall_velocity, forceMagnitude, orbitalSpeed, direction, gravity_increment,
    orbital_increment, damp, vadd. cbn [vx vy vz gravitationalStrength defaultProps].
  replace (- y / y) with (-1) by (field; lra).
  split; f_equal; lra.
Qed.

(** Star [j] over the frames: well-formedness, and the loop body applied
    once per frame. *)
Lemma frames_step (P : BlackHoleProps) (st : Stars.t * Rand) (n j : nat) :
  stars_wf (fst st) -> (j < Stars.count (fst st))%nat ->
  exists rnd',
    read_star (fst (frames P (S n) st)) j
    = fst (star_update P rnd' (read_star (fst (frames P n st)) j)).
Proof.
  intros Hwf Hj. cbn [frames].
  destruct (frames_wf P n st Hwf) as (Hwf' & Hc' & _).
  destruct (frames P n st) as [d r]. cbn [fst] in *.
  destruct (animate_stars_at P d r j Hwf' ltac:(lia)) as (rnd' & _ & ->).
  by exists rnd'.
Qed.

(** Until it is found below the horizon, the star spawned at (0, 20, 0)
    stays on the positive y axis, moving down by at least 0.000061875 per
    frame at a speed of at most 0.13. *)
Lemma axis_star_falls (n : nat) :
  let star k := read_star (fst (frames defaultProps k (starData defaultProps axis_rnd))) 0 in
  (exists k, (k <= n)%nat /\ distanceToCenter (pos (star k)) < size defaultProps * 1.5) \/
  (exists y w, pos (star n) = V3 0 y 0 /\ vel (star n) = V3 0 (- w) 0 /\
               0 < y <= 20 - INR n * 0.000061875 /\ 0 <= w <= 0.13).
Proof.
  cbn zeta. unfold starData.
  destruct (starData_n_wf 500 defaultProps axis_rnd) as [Hwf Hc].
  pose proof (starData_n_at 500 defaultProps axis_rnd 0 ltac:(lia)) as Hs.
  change (0 * 6)%nat with 0%nat in Hs.
  set (st0 := starData_n 500 defaultProps axis_rnd) in *.
  induction n as [|n IH].
  - right. exists 20, 0. cbn [frames]. rewrite Hs. unfold spawn_star. cbn [pos vel].
    cbn [accretionDiskSize defaultProps]. rewrite axis_spawn_pos.
    split; [reflexivity|]. split; [f_equal; lra|]. cbn [INR]. lra.
  - destruct IH as [(k & Hk & Hlt) | (y & w & Hp & Hv & [Hy0 Hy] & [Hw0 Hw])].
    { left. exists k. split; [lia | exact Hlt]. }
    destruct (Rlt_dec (distanceToCenter (pos (read_star (fst (frames defaultProps n st0)) 0)))
                (size defaultProps * 1.5)) as [Hlt | Hout].
    { left. exists n. split; [lia | exact Hlt]. }
    right.
    destruct (frames_step defaultProps st0 n 0 Hwf ltac:(lia)) as (rnd' & ->).
    rewrite (star_update_outside _ _ _ Hout).
    assert (Hy45 : 4.5 <= y).
    { rewrite Hp, distance_on_y_axis in Hout by lra. cbn in Hout. lra. }
    destruct (read_star (fst (frames defaultProps n st0)) 0) as [p v sz l].
    cbn [pos vel] in Hp, Hv. subst p v.
    destruct (infall_on_y_axis rnd' y w sz l Hy0) as [Hp' Hv'].
    assert (HF : 0.25 / 400 <= 0.25 / (y * y) <= 0.25 / 20.25).
    { pose proof (pos_INR n).
      split; apply Rmult_le_compat_l; try lra; apply Rinv_le_contravar; nra. }
    exists (y - 0.99 * (w + 0.1 * (0.25 / (y * y)))), (0.99 * (w + 0.1 * (0.25 / (y * y)))).
    split; [exact Hp'|]. split; [exact Hv'|].
    rewrite S_INR. lra.
Qed.

(** The star spawned at (0, 20, 0) is below the horizon after some frame. *)
Lemma axis_star_crosses_horizon :
  exists n,
    distanceToCenter
      (pos (read_star (fst (frames defaultProps n (starData defaultProps axis_rnd))) 0))
    < size defaultProps * 1.5.
Proof.
  assert (HN : INR (400 * 1000) = 400000).
  { rewrite mult_INR, !INR_IZR_INZ.
    change (Z.of_nat 400) with 400%Z. change (Z.of_nat 1000) with 1000%Z. lra. }
  destruct (axis_star_falls (400 * 1000)) as [(k & _ & Hk) | (y & w & _ & _ & [Hy0 Hy] & _)].
  - by exists k.
  - exfalso. rewrite HN in Hy. lra.
Qed.

(** C1 as stated fails, on both sides.  Above: on the small black hole the
    first star is outside [3 A] after the first frame.  Below: on the
    default black hole the star spawned at (0, 20, 0) is inside the horizon
    radius after some frame. *)
Lemma distance_bounds_fail :
  (let P := smallProps in
   let after := read_star (fst (frames P 1 (starData P sample_rnd))) 0 in
   rnd_ok sample_rnd /\
   0 < size P /\ size P * 1.5 < accretionDiskSize P * 2 /\
   0 < gravitationalStrength P /\
   accretionDiskSize P * 3 < distanceToCenter (pos after)) /\
  (let P := defaultProps in
   rnd_ok axis_rnd /\
   exists n,
     distanceToCenter (pos (read_star (fst (frames P n (starData P axis_rnd))) 0))
     < size P * 1.5).
Proof.
  split.
  - exact small_star_leaves_shell.
  - cbn zeta. split; [exact axis_rnd_ok | exact axis_star_crosses_horizon].
Qed.


(** ** The infall branch *)

Lemma distance_sq (p : Vec3) :
  distanceToCenter p * distanceToCenter p = vx p * vx p + vy p * vy p + vz p * vz p.
Proof. unfold distanceToCenter. apply sqrt_sqrt. nra. Qed.

Lemma distance_nonneg (p : Vec3) : 0 <= distanceToCenter p.
Proof. apply sqrt_pos. Qed.

(** Outside the horizon of a black hole of positive size the distance is
    positive. *)
Lemma outside_positive (P : BlackHoleProps) (p : Vec3) :
  0 < size P -> ~ distanceToCenter p < size P * 1.5 ->
  size P * 1.5 <= distanceToCenter p /\ 0 < distanceToCenter p.
Proof. intros Hs Hd. lra. Qed.

Lemma direction_unit (p : Vec3) :
  0 < distanceToCenter p ->
  distanceToCenter (direction p (distanceToCenter p)) = 1.
Proof.
  intros Hd. pose proof (distance_sq p) as Hsq.
  set (d := distanceToCenter p) in *.
  unfold distanceToCenter at 1. unfold direction. cbn [vx vy vz].
  replace (- vx p / d * (- vx p / d) + - vy p / d * (- vy p / d) + - vz p / d * (- vz p / d))
    with ((vx p * vx p + vy p * vy p + vz p * vz p) / (d * d)) by (field; lra).
  rewrite <- Hsq. replace (d * d / (d * d)) with 1 by (field; lra). apply sqrt_1.
Qed.

(** Outside the horizon the force and the square-root argument are
    nonnegative and largest at the horizon radius. *)
Lemma force_le_horizon (P : BlackHoleProps) (d : R) :
  0 < size P -> 0 <= gravitationalStrength P -> size P * 1.5 <= d ->
  0 <= forceMagnitude P d <= gravitationalStrength P * 0.5 / (size P * 1.5 * (size P * 1.5)) /\
  0 <= forceMagnitude P d / d
    <= gravitationalStrength P * 0.5 / (size P * 1.5 * (size P * 1.5)) / (size P * 1.5).
Proof.
  intros Hs Hg Hd. unfold forceMagnitude.
  set (h := size P * 1.5) in *. set (g := gravitationalStrength P * 0.5).
  assert (Hh : 0 < h) by (unfold h; lra).
  assert (Hg' : 0 <= g) by (unfold g; lra).
  assert (Hi1 : 0 < / (d * d) <= / (h * h)).
  { split; [apply Rinv_0_lt_compat; nra|]. apply Rinv_le_contravar; nra. }
  assert (Hi2 : 0 < / d <= / h).
  { split; [apply Rinv_0_lt_compat; lra|]. apply Rinv_le_contravar; lra. }
  unfold Rdiv.
  assert (H1 : 0 <= g * / (d * d) <= g * / (h * h)) by nra.
  split; [exact H1|].
  split; [apply Rmult_le_pos; lra|].
  apply Rmult_le_compat; lra.
Qed.

(** C3. In the infall branch (star not below the horizon, black hole of
    positive size and nonnegative gravitational strength) the force
    magnitude is [gravitationalStrength * 0.5]
    over the squared distance, the direction is the unit vector from the
    star toward the centre, and the stored velocity is the old one
    incremented by [direction * force * 0.1] first, then by the orbital
    component on x and z, then damped by 0.99. *)
Theorem gravity_increment_first (P : BlackHoleProps) (rnd : Rand) (s : Star) :
  0 < size P -> 0 <= gravitationalStrength P ->
  ~ distanceToCenter (pos s) < size P * 1.5 ->
  let d := distanceToCenter (pos s) in
  let F := forceMagnitude P d in
  let dir := direction (pos s) d in
  let os := orbitalSpeed F d in
  let v1 := V3 (vx (vel s) + vx dir * F * 0.1)
               (vy (vel s) + vy dir * F * 0.1)
               (vz (vel s) + vz dir * F * 0.1) in
  F = gravitationalStrength P * 0.5 / (d * d) /\
  distanceToCenter dir = 1 /\
  vadd (pos s) (V3 (d * vx dir) (d * vy dir) (d * vz dir)) = V3 0 0 0 /\
  vel (fst (star_update P rnd s))
    = V3 ((vx v1 + - vz dir * os * 0.5) * 0.99)
         (vy v1 * 0.99)
         ((vz v1 + vx dir * os * 0.5) * 0.99).
Proof.
  intros Hs _ Hd. cbn zeta.
  destruct (outside_positive P (pos s) Hs Hd) as [_ Hpos].
  split; [reflexivity|].
  split; [by apply direction_unit|].
  split.
  - unfold vadd, direction. cbn [vx vy vz]. f_equal; field; lra.
  - rewrite star_update_outside by exact Hd. reflexivity.
Qed.

Lemma gravity_increment_first_witness :
  0 < size smallProps /\ 0 <= gravitationalStrength smallProps /\
  ~ distanceToCenter (pos (mkStar (V3 1 0 0) (V3 0 0 0) 0.25 7)) < size smallProps * 1.5 /\
  forceMagnitude smallProps (distanceToCenter (V3 1 0 0))
    = 0.5 * 0.5 / (distanceToCenter (V3 1 0 0) * distanceToCenter (V3 1 0 0)).
Proof.
  assert (Hd : distanceToCenter (V3 1 0 0) = 1) by (apply distance_on_x_axis; lra).
  assert (Hs : 0 < size smallProps) by (cbn; lra).
  assert (Hout : ~ distanceToCenter (pos (mkStar (V3 1 0 0) (V3 0 0 0) 0.25 7))
                   < size smallProps * 1.5).
  { cbn [pos]. rewrite Hd. cbn. lra. }
  assert (Hg : 0 <= gravitationalStrength smallProps) by (cbn; lra).
  split; [exact Hs|]. split; [exact Hg|]. split; [exact Hout|].
  exact (proj1 (gravity_increment_first smallProps sample_rnd
                  (mkStar (V3 1 0 0) (V3 0 0 0) 0.25 7) Hs Hg Hout)).
Defined.

(** The part of a vector in the plane y = 0 is no longer than the vector. *)
Lemma plane_part_le_distance (p : Vec3) :
  sqrt (vx p * vx p + vz p * vz p) <= distanceToCenter p.
Proof. unfold distanceToCenter. apply sqrt_le_1_alt. nra. Qed.

(** C7. In the infall branch (black hole of positive size and nonnegative
    gravitational strength) of a star at [(x, y, z)], [d] away from the
    centre, with [F = gravitationalStrength * 0.5 / d^2]: the direction
    [dir = (-x/d, -y/d, -z/d)] has length 1 and points from the star to the
    centre; the velocity stored is
    [((v + dir * F * 0.1) + inc) * 0.99] with the orbital increment
    [inc = (-dirZ, 0, dirX) * os * 0.5], [os = sqrt (F / d) * 2]; [inc] is
    perpendicular to [dir] at every star position; its length is
    [os * 0.5 * sqrt (x^2 + z^2) / d], which is at most [os * 0.5], equals
    [os * 0.5] when [y = 0], and is 0 (the increment is the zero vector) on
    the y axis. *)
Theorem orbital_increment_perpendicular (P : BlackHoleProps) (rnd : Rand) (s : Star) :
  0 < size P -> 0 <= gravitationalStrength P ->
  ~ distanceToCenter (pos s) < size P * 1.5 ->
  let x := vx (pos s) in
  let y := vy (pos s) in
  let z := vz (pos s) in
  let d := distanceToCenter (pos s) in
  let F := gravitationalStrength P * 0.5 / (d * d) in
  let dir := V3 (- x / d) (- y / d) (- z / d) in
  let os := sqrt (F / d) * 2 in
  let inc := V3 (- vz dir * os * 0.5) 0 (vx dir * os * 0.5) in
  distanceToCenter dir = 1 /\
  vadd (pos s) (V3 (d * vx dir) (d * vy dir) (d * vz dir)) = V3 0 0 0 /\
  vel (fst (star_update P rnd s))
    = V3 ((vx (vel s) + vx dir * F * 0.1 + vx inc) * 0.99)
         ((vy (vel s) + vy dir * F * 0.1) * 0.99)
         ((vz (vel s) + vz dir * F * 0.1 + vz inc) * 0.99) /\
  dot inc dir = 0 /\
  distanceToCenter inc = os * 0.5 * (sqrt (x * x + z * z) / d) /\
  distanceToCenter inc <= os * 0.5 /\
  (y = 0 -> distanceToCenter inc = os * 0.5) /\
  (x = 0 -> z = 0 -> inc = V3 0 0 0).
Proof.
  intros Hs Hg Hd. cbn zeta. cbn [vx vy vz].
  destruct (outside_positive P (pos s) Hs Hd) as [Hle Hpos].
  pose proof (direction_unit (pos s) Hpos) as Hunit. unfold direction in Hunit.
  pose proof (plane_part_le_distance (pos s)) as Hplane.
  set (d := distanceToCenter (pos s)) in *.
  set (F := gravitationalStrength P * 0.5 / (d * d)).
  set (os := sqrt (F / d) * 2).
  set (m := sqrt (vx (pos s) * vx (pos s) + vz (pos s) * vz (pos s))) in *.
  assert (Hos : 0 <= os * 0.5).
  { unfold os. pose proof (sqrt_pos (F / d)). lra. }
  assert (Hm : 0 <= m) by apply sqrt_pos.
  assert (Hid : 0 < / d) by (apply Rinv_0_lt_compat; exact Hpos).
  assert (Hlen : distanceToCenter
                   (V3 (- (- vz (pos s) / d) * os * 0.5) 0 (- vx (pos s) / d * os * 0.5))
                 = os * 0.5 * (m / d)).
  { unfold distanceToCenter. cbn [vx vy vz].
    replace (- (- vz (pos s) / d) * os * 0.5 * (- (- vz (pos s) / d) * os * 0.5) + 0 * 0
             + - vx (pos s) / d * os * 0.5 * (- vx (pos s) / d * os * 0.5))
      with ((os * 0.5 * / d) * (os * 0.5 * / d)
            * (vx (pos s) * vx (pos s) + vz (pos s) * vz (pos s)))
      by (unfold Rdiv; ring).
    rewrite sqrt_mult by nra. rewrite sqrt_square by nra.
    fold m. unfold Rdiv. ring. }
  assert (Hratio : m / d <= 1).
  { unfold Rdiv. apply Rmult_le_reg_r with d; [exact Hpos|].
    rewrite Rmult_assoc, Rinv_l by lra. lra. }
  split; [exact Hunit|].
  split.
  { unfold vadd. cbn [vx vy vz]. destruct (pos s) as [x y z]. cbn [vx vy vz].
    f_equal; field; lra. }
  split.
  { rewrite star_update_outside by exact Hd.
    unfold infall, infall_velocity, damp, vadd, gravity_increment, orbital_increment,
      orbitalSpeed, direction, forceMagnitude.
    cbn [fst vel vx vy vz]. reflexivity. }
  split; [unfold dot; cbn [vx vy vz]; unfold Rdiv; ring|].
  split; [exact Hlen|].
  split; [rewrite Hlen; nra|].
  split.
  - intros Hy. rewrite Hlen.
    assert (Hmd : m = d).
    { unfold m, d, distanceToCenter. rewrite Hy. f_equal. ring. }
    rewrite Hmd. replace (d / d) with 1 by (field; lra). ring.
  - intros Hx Hz. rewrite Hx, Hz. f_equal; unfold Rdiv; ring.
Qed.

Lemma orbital_increment_perpendicular_witness :
  let s := mkStar (V3 1 0 0) (V3 0 0 0) 0.25 7 in
  let d := distanceToCenter (pos s) in
  let os := sqrt (gravitationalStrength smallProps * 0.5 / (d * d) / d) * 2 in
  0 < size smallProps /\ 0 <= gravitationalStrength smallProps /\
  ~ d < size smallProps * 1.5 /\
  distanceToCenter (V3 (- 1 / d) (- 0 / d) (- 0 / d)) = 1 /\
  distanceToCenter (V3 (- (- 0 / d) * os * 0.5) 0 (- 1 / d * os * 0.5)) = os * 0.5.
Proof.
  cbn zeta.
  assert (Hd : distanceToCenter (V3 1 0 0) = 1) by (apply distance_on_x_axis; lra).
  assert (Hout : ~ distanceToCenter (pos (mkStar (V3 1 0 0) (V3 0 0 0) 0.25 7))
                   < size smallProps * 1.5).
  { cbn [pos]. rewrite Hd. cbn. lra. }
  assert (Hs : 0 < size smallProps) by (cbn; lra).
  assert (Hg : 0 <= gravitationalStrength smallProps) by (cbn; lra).
  pose proof (orbital_increment_perpendicular smallProps sample_rnd
                (mkStar (V3 1 0 0) (V3 0 0 0) 0.25 7) Hs Hg Hout) as H.
  cbn zeta in H.
  destruct H as (Hunit & _ & _ & _ & _ & _ & Hplane & _).
  split; [exact Hs|]. split; [exact Hg|]. split; [exact Hout|].
  split; [exact Hunit|]. exact (Hplane eq_refl).
Defined.

(** Off the plane y = 0 the increment's length is not
    [sqrt (force / distance) * 2 * 0.5].  A star of the default black hole
    (size 3, gravitational strength 0.5) at (0, 20, 0), at rest, is in the infall branch; the direction
    toward the centre is (0, -1, 0), so the orbital increment is the zero
    vector, of length 0, while [sqrt (force / distance) * 2 * 0.5] is
    positive; the velocity stored by the frame is purely radial. *)
Lemma orbital_increment_vanishes_on_axis :
  let P := defaultProps in
  let s := mkStar (V3 0 20 0) (V3 0 0 0) 0.3 0 in
  let d := distanceToCenter (pos s) in
  let F := forceMagnitude P d in
  let inc := orbital_increment (direction (pos s) d) (orbitalSpeed F d) in
  0 < size P /\ 0 <= gravitationalStrength P /\
  ~ d < size P * 1.5 /\
  direction (pos s) d = V3 0 (-1) 0 /\
  inc = V3 0 0 0 /\
  distanceToCenter inc = 0 /\
  0 < sqrt (F / d) * 2 * 0.5 /\
  distanceToCenter inc <> sqrt (F / d) * 2 * 0.5 /\
  vel (fst (star_update P sample_rnd s)) = V3 0 (- 0.000061875) 0.
Proof.
  cbn zeta.
  set (s := mkStar (V3 0 20 0) (V3 0 0 0) 0.3 0).
  assert (Hd : distanceToCenter (pos s) = 20).
  { apply distance_on_y_axis. lra. }
  assert (Hout : ~ distanceToCenter (pos s) < size defaultProps * 1.5).
  { rewrite Hd. cbn. lra. }
  rewrite (star_update_outside _ _ _ Hout).
  unfold infall, infall_velocity. cbn [fst vel].
  rewrite Hd. cbn [pos vel s].
  assert (Hdir : direction (V3 0 20 0) 20 = V3 0 (-1) 0).
  { unfold direction. cbn [vx vy vz]. f_equal; lra. }
  rewrite Hdir.
  set (q := sqrt (forceMagnitude defaultProps 20 / 20)).
  assert (Hq : 0 < q).
  { unfold q. apply sqrt_lt_R0. unfold forceMagnitude. cbn. lra. }
  assert (Hinc : orbital_increment (V3 0 (-1) 0) (orbitalSpeed (forceMagnitude defaultProps 20) 20)
                 = V3 0 0 0).
  { unfold orbital_increment. cbn [vx vy vz]. f_equal; ring. }
  rewrite Hinc.
  assert (Hzero : distanceToCenter (V3 0 0 0) = 0).
  { unfold distanceToCenter. cbn [vx vy vz].
    replace (0 * 0 + 0 * 0 + 0 * 0) with 0 by ring. apply sqrt_0. }
  rewrite Hzero.
  split; [cbn; lra|]. split; [cbn; lra|]. split; [cbn; lra|].
  split; [reflexivity|]. split; [reflexivity|]. split; [reflexivity|].
  fold q. split; [lra|]. split; [lra|].
  unfold gravity_increment, damp, vadd, forceMagnitude. cbn. f_equal; lra.
Qed.

(** ** Divisions of the infall branch *)

Lemma checked_div_nonzero (a b : R) : b <> 0 -> checked_div a b = Some (a / b).
Proof. intros Hb. unfold checked_div. destruct (Req_dec_T b 0); [contradiction | reflexivity]. Qed.

(** C8. In the infall branch of a black hole of positive size the distance
    to the centre is at least the horizon radius [size * 1.5], hence
    positive: the divisors [distance * distance] and [distance] are nonzero,
    the computation with every division checked never meets a zero divisor
    and returns what the loop body computes, and (for a nonnegative
    gravitational strength) the argument of the square root is
    nonnegative. *)
Theorem infall_divisions_defined (P : BlackHoleProps) (s : Star) :
  0 < size P -> ~ distanceToCenter (pos s) < size P * 1.5 ->
  let d := distanceToCenter (pos s) in
  size P * 1.5 <= d /\ 0 < d /\ d * d <> 0 /\ d <> 0 /\
  infall_velocity_checked P (pos s) d (vel s) = Some (infall_velocity P (pos s) d (vel s)) /\
  (0 <= gravitationalStrength P -> 0 <= forceMagnitude P d / d).
Proof.
  intros Hs Hd. cbn zeta.
  destruct (outside_positive P (pos s) Hs Hd) as [Hle Hpos].
  set (d := distanceToCenter (pos s)) in *.
  assert (Hd2 : d * d <> 0) by nra.
  assert (Hd1 : d <> 0) by lra.
  split; [exact Hle|]. split; [exact Hpos|]. split; [exact Hd2|]. split; [exact Hd1|].
  split.
  - unfold infall_velocity_checked.
    rewrite (checked_div_nonzero _ (d * d)) by exact Hd2. cbn.
    rewrite !checked_div_nonzero by exact Hd1. cbn. reflexivity.
  - intros Hg. unfold forceMagnitude.
    apply Rmult_le_pos; [|left; by apply Rinv_0_lt_compat].
    apply Rmult_le_pos; [lra|]. left. apply Rinv_0_lt_compat. nra.
Qed.

Lemma infall_divisions_defined_witness :
  0 < size smallProps /\
  ~ distanceToCenter (pos (mkStar (V3 1 0 0) (V3 0 0 0) 0.25 7)) < size smallProps * 1.5 /\
  0 < distanceToCenter (V3 1 0 0).
Proof.
  assert (Hd : distanceToCenter (V3 1 0 0) = 1) by (apply distance_on_x_axis; lra).
  assert (Hs : 0 < size smallProps) by (cbn; lra).
  assert (Hout : ~ distanceToCenter (pos (mkStar (V3 1 0 0) (V3 0 0 0) 0.25 7))
                   < size smallProps * 1.5).
  { cbn [pos]. rewrite Hd. cbn. lra. }
  split; [exact Hs|]. split; [exact Hout|].
  exact (proj1 (proj2 (infall_divisions_defined smallProps
                  (mkStar (V3 1 0 0) (V3 0 0 0) 0.25 7) Hs Hout))).
Defined.

(** ** Velocity under damping *)

Lemma magnitude_distance (v : Vec3) : magnitude v = distanceToCenter v.
Proof. reflexivity. Qed.

Lemma magnitude_nonneg (v : Vec3) : 0 <= magnitude v.
Proof. apply sqrt_pos. Qed.

Lemma dot_self_nonneg (v : Vec3) : 0 <= dot v v.
Proof. unfold dot. nra. Qed.

Lemma magnitude_sq (v : Vec3) : magnitude v * magnitude v = dot v v.
Proof. apply sqrt_sqrt, dot_self_nonneg. Qed.

Lemma cauchy_schwarz (a b : Vec3) : dot a b * dot a b <= dot a a * dot b b.
Proof.
  unfold dot. destruct a as [a1 a2 a3], b as [b1 b2 b3]. cbn [vx vy vz].
  assert (H : 0 <= (a1 * b2 - a2 * b1)² + (a1 * b3 - a3 * b1)² + (a2 * b3 - a3 * b2)²).
  { repeat apply Rplus_le_le_0_compat; apply Rle_0_sqr. }
  replace ((a1 * b2 - a2 * b1)² + (a1 * b3 - a3 * b1)² + (a2 * b3 - a3 * b2)²)
    with ((a1 * a1 + a2 * a2 + a3 * a3) * (b1 * b1 + b2 * b2 + b3 * b3)
          - (a1 * b1 + a2 * b2 + a3 * b3) * (a1 * b1 + a2 * b2 + a3 * b3)) in H
    by (unfold Rsqr; ring).
  lra.
Qed.

Lemma dot_le_magnitudes (a b : Vec3) : dot a b <= magnitude a * magnitude b.
Proof.
  pose proof (cauchy_schwarz a b) as Hcs.
  pose proof (magnitude_sq a) as Ha. pose proof (magnitude_sq b) as Hb.
  pose proof (magnitude_nonneg a) as Ha0. pose proof (magnitude_nonneg b) as Hb0.
  rewrite <- Ha, <- Hb in Hcs.
  destruct (Rle_dec (dot a b) 0) as [Hneg|Hpos]; [nra|].
  apply Rsqr_incr_0_var; [|nra]. unfold Rsqr. lra.
Qed.

Lemma magnitude_triangle (a b : Vec3) :
  magnitude (vadd a b) <= magnitude a + magnitude b.
Proof.
  pose proof (dot_le_magnitudes a b) as Hab.
  pose proof (magnitude_sq a) as Ha. pose proof (magnitude_sq b) as Hb.
  pose proof (magnitude_nonneg a) as Ha0. pose proof (magnitude_nonneg b) as Hb0.
  rewrite <- (sqrt_square (magnitude a + magnitude b)) by lra.
  unfold magnitude at 1. apply sqrt_le_1_alt.
  replace (dot (vadd a b) (vadd a b)) with (dot a a + 2 * dot a b + dot b b)
    by (unfold dot, vadd; cbn; ring).
  nra.
Qed.

Lemma magnitude_damp (v : Vec3) : magnitude (damp v) = 0.99 * magnitude v.
Proof.
  unfold magnitude.
  replace (dot (damp v) (damp v)) with (0.99 * 0.99 * dot v v)
    by (unfold dot, damp; cbn; ring).
  rewrite sqrt_mult by (try apply dot_self_nonneg; lra).
  rewrite sqrt_square by lra. reflexivity.
Qed.

Lemma infall_velocity_damped (P : BlackHoleProps) (p v : Vec3) :
  infall_velocity P p (distanceToCenter p) v = damp (vadd v (infall_increment P p)).
Proof.
  unfold infall_velocity, infall_increment, damp, vadd, orbital_increment. cbn.
  f_equal; ring.
Qed.

Lemma infall_increment_bound (P : BlackHoleProps) (p : Vec3) :
  0 < size P -> 0 <= gravitationalStrength P ->
  ~ distanceToCenter p < size P * 1.5 ->
  magnitude (infall_increment P p) <= kick_bound P.
Proof.
  intros Hs Hg Hout.
  destruct (outside_positive P p Hs Hout) as [Hle Hpos].
  destruct (force_le_horizon P (distanceToCenter p) Hs Hg Hle) as [[HF0 HF] [HQ0 HQ]].
  pose proof (direction_unit p Hpos) as Hunit.
  unfold infall_increment, kick_bound. cbn zeta.
  set (d := distanceToCenter p) in *. set (F := forceMagnitude P d) in *.
  set (dir := direction p d) in *.
  eapply Rle_trans; [apply magnitude_triangle|].
  apply Rplus_le_compat.
  - replace (magnitude (gravity_increment dir F)) with (F * 0.1 * magnitude dir).
    + rewrite magnitude_distance, Hunit. lra.
    + unfold magnitude.
      replace (dot (gravity_increment dir F) (gravity_increment dir F))
        with ((F * 0.1) * (F * 0.1) * dot dir dir)
        by (unfold dot, gravity_increment; cbn; ring).
      rewrite sqrt_mult by (try apply dot_self_nonneg; nra).
      rewrite sqrt_square by lra. reflexivity.
  - pose proof (magnitude_sq dir) as Hsq. rewrite magnitude_distance, Hunit in Hsq.
    unfold magnitude, orbitalSpeed.
    replace (dot (orbital_increment dir (sqrt (F / d) * 2))
                 (orbital_increment dir (sqrt (F / d) * 2)))
      with (sqrt (F / d) * sqrt (F / d) * (vx dir * vx dir + vz dir * vz dir))
      by (unfold dot, orbital_increment; cbn [vx vy vz]; lra).
    rewrite sqrt_sqrt by exact HQ0.
    apply sqrt_le_1_alt.
    assert (Hxz : 0 <= vx dir * vx dir + vz dir * vz dir <= 1).
    { unfold dot in Hsq. nra. }
    nra.
Qed.

Lemma pow99_bounds (n : nat) : 0 < 0.99 ^ n <= 1.
Proof.
  induction n as [|n [IH0 IH1]]; cbn [pow]; [lra|]. nra.
Qed.

Lemma held_velocity_decay (P : BlackHoleProps) (p v0 : Vec3) (n : nat) :
  0 < size P -> 0 <= gravitationalStrength P ->
  ~ distanceToCenter p < size P * 1.5 ->
  magnitude (held_velocity P p n v0)
    <= 0.99 ^ n * magnitude v0 + 99 * (1 - 0.99 ^ n) * kick_bound P.
Proof.
  intros Hs Hg Hout.
  pose proof (infall_increment_bound P p Hs Hg Hout) as Hk.
  induction n as [|n IH]; cbn [held_velocity pow]; [lra|].
  rewrite infall_velocity_damped, magnitude_damp.
  pose proof (magnitude_triangle (held_velocity P p n v0) (infall_increment P p)) as Ht.
  pose proof (pow99_bounds n) as [Hp0 Hp1].
  nra.
Qed.

Lemma kick_bound_positive (P : BlackHoleProps) :
  0 < size P -> 0 < gravitationalStrength P -> 0 < kick_bound P.
Proof.
  intros Hs Hg. unfold kick_bound. cbn zeta.
  set (h := size P * 1.5). assert (Hh : 0 < h) by (unfold h; lra).
  assert (HF : 0 < gravitationalStrength P * 0.5 / (h * h)).
  { apply Rdiv_lt_0_compat; nra. }
  pose proof (sqrt_pos (gravitationalStrength P * 0.5 / (h * h) / h)). lra.
Qed.

(** C4. A star held at a fixed position outside the horizon (black hole of
    positive size and gravitational strength) has, after any number of
    velocity updates, a velocity magnitude below the fixed bound
    [|v0| + 99 * kick_bound], where [kick_bound] depends on the props only;
    for a star starting at rest, as spawned, the bound is
    [99 * kick_bound].  Each update is the loop body's velocity update at
    that position. *)
Theorem held_velocity_bounded (P : BlackHoleProps) (p v0 : Vec3) (n : nat) :
  0 < size P -> 0 < gravitationalStrength P ->
  ~ distanceToCenter p < size P * 1.5 ->
  magnitude (held_velocity P p n v0) < velocity_bound P v0 /\
  velocity_bound P (V3 0 0 0) = 99 * kick_bound P /\
  (forall rnd sz l,
     vel (fst (star_update P rnd (mkStar p (held_velocity P p n v0) sz l)))
     = held_velocity P p (S n) v0).
Proof.
  intros Hs Hg Hout.
  split; [|split].
  - pose proof (held_velocity_decay P p v0 n Hs (Rlt_le _ _ Hg) Hout) as Hd.
    pose proof (kick_bound_positive P Hs Hg) as HK.
    pose proof (pow99_bounds n) as [Hp0 Hp1].
    pose proof (magnitude_nonneg v0) as Hv.
    unfold velocity_bound. nra.
  - unfold velocity_bound, magnitude, dot. cbn [vx vy vz].
    replace (0 * 0 + 0 * 0 + 0 * 0) with 0 by ring. rewrite sqrt_0. ring.
  - intros rnd sz l. rewrite star_update_outside by exact Hout. reflexivity.
Qed.

Lemma held_velocity_bounded_witness :
  0 < size smallProps /\ 0 < gravitationalStrength smallProps /\
  ~ distanceToCenter (V3 1 0 0) < size smallProps * 1.5 /\
  magnitude (held_velocity smallProps (V3 1 0 0) 100 (V3 0 0 0))
    < velocity_bound smallProps (V3 0 0 0).
Proof.
  assert (Hd : distanceToCenter (V3 1 0 0) = 1) by (apply distance_on_x_axis; lra).
  assert (Hs : 0 < size smallProps) by (cbn; lra).
  assert (Hg : 0 < gravitationalStrength smallProps) by (cbn; lra).
  assert (Hout : ~ distanceToCenter (V3 1 0 0) < size smallProps * 1.5).
  { rewrite Hd. cbn. lra. }
  split; [exact Hs|]. split; [exact Hg|]. split; [exact Hout|].
  exact (proj1 (held_velocity_bounded smallProps (V3 1 0 0) (V3 0 0 0) 100 Hs Hg Hout)).
Defined.

(** ** Displayed size *)

Lemma normalizedDist_mono (P : BlackHoleProps) (d1 d2 : R) :
  0 < accretionDiskSize P -> d1 <= d2 -> normalizedDist P d1 <= normalizedDist P d2.
Proof.
  intros HA Hd. unfold normalizedDist, Rdiv.
  apply Rmult_le_compat_r; [|exact Hd].
  left. apply Rinv_0_lt_compat. lra.
Qed.

(** C6, as amended.  The size stored by the infall branch is
    [(0.2 + 0.1 u) * max (0.1, distance / (3 A))], where [u] is the draw made
    in that frame.  For a fixed draw it is monotonically nondecreasing in the
    distance, equal to the base factor [0.2 + 0.1 u] times
    [distance / (3 A)] above the floor, and never below 0.1 of the base
    factor. *)
Theorem size_monotone_for_fixed_draw (P : BlackHoleProps) (u d1 d2 : R) :
  0 < accretionDiskSize P -> 0 <= u < 1 -> d1 <= d2 ->
  let A := accretionDiskSize P in
  let base := 0.2 + u * 0.1 in
  shrunk_size P u d1 <= shrunk_size P u d2 /\
  0.1 * base <= shrunk_size P u d1 /\
  (0.1 <= d1 / (A * 3) -> shrunk_size P u d1 = base * (d1 / (A * 3))) /\
  (d1 / (A * 3) <= 0.1 -> shrunk_size P u d1 = base * 0.1) /\
  (forall rnd s, rnd 0%nat = u ->
     ~ distanceToCenter (pos s) < size P * 1.5 ->
     ssize (fst (star_update P rnd s)) = shrunk_size P u (distanceToCenter (pos s))).
Proof.
  intros HA [Hu0 Hu1] Hd. cbn zeta.
  pose proof (normalizedDist_mono P d1 d2 HA Hd) as Hn.
  unfold shrunk_size. fold (normalizedDist P d1).
  set (n1 := normalizedDist P d1) in *. set (n2 := normalizedDist P d2) in *.
  assert (Hb : 0 < 0.2 + u * 0.1) by lra.
  split.
  { apply Rmult_le_compat_l; [lra|]. apply Rmax_lub.
    - apply Rmax_l.
    - eapply Rle_trans; [exact Hn | apply Rmax_r]. }
  split.
  { pose proof (Rmax_l 0.1 n1). nra. }
  split.
  { intros H. rewrite Rmax_right by exact H. reflexivity. }
  split.
  { intros H. rewrite Rmax_left by exact H. reflexivity. }
  intros rnd s Hr Hout. rewrite star_update_outside by exact Hout.
  cbn. rewrite Hr. reflexivity.
Qed.

Lemma size_monotone_for_fixed_draw_witness :
  0 < accretionDiskSize defaultProps /\ 0 <= 0.5 < 1 /\ 19 <= 20 /\
  shrunk_size defaultProps 0.5 19 <= shrunk_size defaultProps 0.5 20.
Proof.
  assert (HA : 0 < accretionDiskSize defaultProps) by (cbn; lra).
  assert (Hu : 0 <= 0.5 < 1) by lra.
  assert (Hd : 19 <= 20) by lra.
  split; [exact HA|]. split; [exact Hu|]. split; [exact Hd|].
  exact (proj1 (size_monotone_for_fixed_draw defaultProps 0.5 19 20 HA Hu Hd)).
Defined.

Lemma jitter_rnd_ok : rnd_ok jitter_rnd.
Proof. intros [|[|k]]; cbn; lra. Qed.

(** C6 as stated fails: a star of the default black hole at (20, 0, 0), at
    rest, is in the infall branch for two successive frames; it is closer to
    the centre at the second frame than at the first, and the second frame
    stores a larger size than the first. *)
Lemma size_grows_while_distance_shrinks :
  let P := defaultProps in
  let s0 := mkStar (V3 20 0 0) (V3 0 0 0) 0.3 0 in
  let r1 := star_update P jitter_rnd s0 in
  let r2 := star_update P (snd r1) (fst r1) in
  rnd_ok jitter_rnd /\
  ~ distanceToCenter (pos s0) < size P * 1.5 /\
  ~ distanceToCenter (pos (fst r1)) < size P * 1.5 /\
  distanceToCenter (pos (fst r1)) < distanceToCenter (pos s0) /\
  ssize (fst r1) < ssize (fst r2).
Proof.
  cbn zeta.
  set (s0 := mkStar (V3 20 0 0) (V3 0 0 0) 0.3 0).
  assert (Hd0 : distanceToCenter (pos s0) = 20).
  { apply distance_on_x_axis. lra. }
  assert (Hout0 : ~ distanceToCenter (pos s0) < size defaultProps * 1.5).
  { rewrite Hd0. cbn. lra. }
  rewrite (star_update_outside _ _ _ Hout0).
  set (q := sqrt (forceMagnitude defaultProps 20 / 20)).
  assert (Hq : q * q = 0.00003125 /\ 0 <= q).
  { split; [|apply sqrt_pos]. unfold q. rewrite sqrt_sqrt.
    - unfold forceMagnitude. cbn. lra.
    - unfold forceMagnitude. cbn. lra. }
  destruct Hq as [Hqq Hq0].
  assert (Hp1 : pos (fst (infall defaultProps jitter_rnd s0))
                = V3 (20 - 0.000061875) 0 (- (0.99 * q))).
  { unfold infall. cbn [fst pos]. rewrite Hd0. cbn [pos vel s0].
    unfold infall_velocity, orbitalSpeed, direction, gravity_increment,
      orbital_increment, damp, vadd. cbn [vx vy vz]. fold q.
    unfold forceMagnitude. cbn. f_equal; lra. }
  assert (Hs1 : ssize (fst (infall defaultProps jitter_rnd s0))
                = shrunk_size defaultProps 0 20).
  { unfold infall. cbn [fst ssize]. rewrite Hd0. reflexivity. }
  assert (Hr1 : snd (infall defaultProps jitter_rnd s0) 0%nat = 0.9).
  { reflexivity. }
  set (r1 := infall defaultProps jitter_rnd s0) in *.
  set (d1 := distanceToCenter (pos (fst r1))).
  assert (Hd1 : d1 * d1 = (20 - 0.000061875) * (20 - 0.000061875) + 0.9801 * 0.00003125).
  { unfold d1. rewrite distance_sq, Hp1. cbn [vx vy vz]. nra. }
  assert (Hd1pos : 0 <= d1) by apply distance_nonneg.
  assert (Hd1b : 19 < d1 < 20) by nra.
  assert (Hout1 : ~ d1 < size defaultProps * 1.5) by (cbn; lra).
  split; [exact jitter_rnd_ok|].
  split; [exact Hout0|].
  split; [exact Hout1|].
  split; [lra|].
  rewrite (star_update_outside _ _ _ Hout1), Hs1.
  unfold infall. cbn [fst ssize]. fold d1. rewrite Hr1.
  unfold shrunk_size, normalizedDist. cbn [accretionDiskSize defaultProps].
  rewrite !Rmax_right by lra.
  nra.
Qed.

(** ** What the star loop leaves alone *)

(** C9. Any number of frames leaves the stars' colour buffer exactly as it
    was (respawns included: no branch stores into it), and changes neither
    the star count nor the length of the position, velocity, size, colour
    and lifetime buffers. *)
Theorem frames_preserve_colors_and_lengths
    (P : BlackHoleProps) (n : nat) (st : Stars.t * Rand) :
  let d := fst st in
  let d' := fst (frames P n st) in
  Stars.colors d' = Stars.colors d /\
  Stars.count d' = Stars.count d /\
  length (Stars.positions d') = length (Stars.positions d) /\
  length (Stars.velocities d') = length (Stars.velocities d) /\
  length (Stars.sizes d') = length (Stars.sizes d) /\
  length (Stars.colors d') = length (Stars.colors d) /\
  length (Stars.lifetimes d') = length (Stars.lifetimes d).
Proof.
  cbn zeta. induction n as [|n IH]; cbn [frames].
  - repeat split; reflexivity.
  - destruct IH as (Hcol & Hc & Hp & Hv & Hs & _ & Hl).
    destruct (star_fold_inv P (seq 0 (Stars.count (fst (frames P n st)))) (frames P n st))
      as (_ & Hc' & Hcol' & (Hp' & Hv' & Hs' & Hl') & _).
    unfold animate_stars, for_loop.
    rewrite Hcol', Hc', Hp', Hv', Hs', Hl', Hcol. tauto.
Qed.

(** ** The accretion disk *)

Lemma disk_iter_length (i : nat) (a : list R) : length (disk_iter i a) = length a.
Proof. unfold disk_iter. by rewrite !length_insert. Qed.

Lemma disk_iter_other (i j : nat) (a : list R) :
  i <> j -> rd3 (disk_iter i a) (j * 3) = rd3 a (j * 3).
Proof.
  intros Hij. unfold disk_iter, rd3. f_equal; rewrite !rd_insert_ne by lia; reflexivity.
Qed.

Lemma disk_iter_self (i : nat) (a : list R) :
  (i * 3 + 2 < length a)%nat ->
  rd3 (disk_iter i a) (i * 3) = disk_update (rd3 a (i * 3)).
Proof.
  intros Hi. unfold disk_iter, rd3 at 1.
  set (p' := disk_update (rd3 a (i * 3))).
  transitivity (V3 (vx p') (vy p') (vz p')); [|destruct p'; reflexivity].
  f_equal.
  - rewrite rd_insert_ne by lia. apply rd_insert_eq. lia.
  - rewrite !rd_insert_ne by lia. reflexivity.
  - apply rd_insert_eq. rewrite length_insert. lia.
Qed.

Lemma disk_fold_inv (l : list nat) (a : list R) :
  let a' := fold_left (fun acc i => disk_iter i acc) l a in
  length a' = length a /\
  (forall j, ~ In j l -> rd3 a' (j * 3) = rd3 a (j * 3)).
Proof.
  revert a. induction l as [|i l IH]; intros a; cbn zeta; cbn [fold_left].
  - split; reflexivity.
  - destruct (IH (disk_iter i a)) as [Hlen Hoth]. split.
    + rewrite Hlen. apply disk_iter_length.
    + intros j Hj. rewrite Hoth.
      * apply disk_iter_other. intros ->. apply Hj. by left.
      * intros Hin. apply Hj. by right.
Qed.

(** After one frame, disk particle [j] holds [disk_update] of what it held
    before. *)
Lemma animate_disk_at (d : Disk.t) (j : nat) :
  disk_wf d -> (j < Disk.count d)%nat ->
  rd3 (Disk.positions (animate_disk d)) (j * 3)
  = disk_update (rd3 (Disk.positions d) (j * 3)).
Proof.
  unfold disk_wf. intros Hwf Hj. unfold animate_disk, for_loop. cbn [Disk.positions].
  replace (Disk.count d) with (j + Datatypes.S (Disk.count d - j - 1))%nat by lia.
  rewrite seq_app, fold_left_app. cbn [seq fold_left]. change (0 + j)%nat with j.
  set (a1 := fold_left _ (seq 0 j) (Disk.positions d)).
  destruct (disk_fold_inv (seq 0 j) (Disk.positions d)) as [Hlen1 Hoth1].
  fold a1 in Hlen1, Hoth1.
  destruct (disk_fold_inv (seq (Datatypes.S j) (Disk.count d - j - 1)) (disk_iter j a1))
    as [_ Hoth2].
  rewrite Hoth2 by (rewrite in_seq; lia).
  rewrite disk_iter_self by lia.
  rewrite Hoth1 by (rewrite in_seq; lia). reflexivity.
Qed.

Lemma animate_disk_wf (d : Disk.t) : disk_wf d -> disk_wf (animate_disk d).
Proof.
  unfold disk_wf, animate_disk, for_loop. cbn. intros H.
  by rewrite (proj1 (disk_fold_inv (seq 0 (Disk.count d)) (Disk.positions d))).
Qed.

(** *** Math.atan2 returns the polar angle *)

Lemma atan_hypot (x z : R) :
  x <> 0 -> sqrt (1 + (z / x)²) * Rabs x = sqrt (x * x + z * z).
Proof.
  intros Hx. rewrite <- sqrt_Rsqr_abs, <- sqrt_mult.
  - f_equal. unfold Rsqr. field. exact Hx.
  - pose proof (Rle_0_sqr (z / x)). lra.
  - apply Rle_0_sqr.
Qed.

Lemma atan_polar (x z : R) :
  x <> 0 ->
  cos (atan (z / x)) * sqrt (x * x + z * z) = Rabs x /\
  sin (atan (z / x)) * sqrt (x * x + z * z) = z / x * Rabs x.
Proof.
  intros Hx. rewrite cos_atan, sin_atan, <- (atan_hypot x z Hx).
  assert (Hs : 0 < sqrt (1 + (z / x)²)).
  { apply sqrt_lt_R0. pose proof (Rle_0_sqr (z / x)). lra. }
  split; field; lra.
Qed.

Lemma atan2_polar (x z : R) :
  0 < sqrt (x * x + z * z) ->
  cos (atan2 z x) * sqrt (x * x + z * z) = x /\
  sin (atan2 z x) * sqrt (x * x + z * z) = z.
Proof.
  intros Hr. unfold atan2.
  destruct (Rlt_dec 0 x) as [Hpos|Hnpos].
  - destruct (atan_polar x z) as [Hc Hs]; [lra|].
    rewrite Hc, Hs, Rabs_right by lra. split; [reflexivity | field; lra].
  - destruct (Rlt_dec x 0) as [Hneg|Hnneg].
    + destruct (atan_polar x z) as [Hc Hs]; [lra|].
      rewrite Rabs_left in Hc, Hs by exact Hneg.
      assert (Hz : z / x * - x = - z) by (field; lra).
      destruct (Rle_dec 0 z).
      * rewrite neg_cos, neg_sin. split; nra.
      * unfold Rminus. rewrite cos_plus, sin_plus, cos_neg, sin_neg, cos_PI, sin_PI.
        split; nra.
    + assert (Hx : x = 0) by lra. subst x.
      replace (0 * 0 + z * z) with (z * z) in * by ring.
      destruct (Rlt_dec 0 z) as [Hzpos|Hznpos].
      * rewrite cos_PI2, sin_PI2, sqrt_square by lra. split; ring.
      * destruct (Rlt_dec z 0) as [Hzneg|Hznneg].
        -- rewrite cos_neg, sin_neg, cos_PI2, sin_PI2.
           replace (z * z) with (- z * - z) by ring.
           rewrite sqrt_square by lra. split; ring.
        -- assert (Hz : z = 0) by lra. subst z.
           replace (0 * 0) with 0 in Hr by ring. rewrite sqrt_0 in Hr. lra.
Qed.

(** *** One disk particle *)

Lemma disk_radius (a r : R) :
  0 <= r -> sqrt (cos a * r * (cos a * r) + sin a * r * (sin a * r)) = r.
Proof.
  intros Hr.
  replace (cos a * r * (cos a * r) + sin a * r * (sin a * r))
    with (r * r * (sin a * sin a + cos a * cos a)) by ring.
  rewrite sin_cos_sq, Rmult_1_r. by apply sqrt_square.
Qed.

(** [disk_update] off the axis: a rotation about the y axis by
    [0.5 / (radius * 0.1) * 0.01]. *)
Lemma disk_update_rotation (p : Vec3) :
  let radius := sqrt (vx p * vx p + vz p * vz p) in
  let angle := atan2 (vz p) (vx p) in
  let delta := 0.5 / (radius * 0.1) * 0.01 in
  let p' := disk_update p in
  0 < radius ->
  sqrt (vx p' * vx p' + vz p' * vz p') = radius /\
  vy p' = vy p /\
  vx p = radius * cos angle /\
  vz p = radius * sin angle /\
  vx p' = radius * cos (angle + delta) /\
  vz p' = radius * sin (angle + delta).
Proof.
  cbn zeta. intros Hr.
  destruct (atan2_polar (vx p) (vz p) Hr) as [Hc Hs].
  unfold disk_update. cbn [vx vy vz].
  split; [apply disk_radius; lra|].
  split; [reflexivity|].
  split; [lra|]. split; [lra|].
  split; ring.
Qed.

(** *** particleData: what the initialiser leaves in the position buffer *)

Lemma disk_alloc_wf (n : nat) : disk_wf (disk_alloc n).
Proof. unfold disk_wf, disk_alloc. cbn. apply length_replicate. Qed.

Lemma particleData_loop (P : BlackHoleProps) (n k : nat) (rnd : Rand) :
  let st := for_loop k (particleData_iter P) (disk_alloc n, rnd) in
  disk_wf (fst st) /\
  Disk.count (fst st) = n /\
  snd st = rnd_drop (k * 4) rnd /\
  (forall j, (j < k)%nat -> (j < n)%nat ->
     rd3 (Disk.positions (fst st)) (j * 3) = disk_spawn P (rnd_drop (j * 4) rnd)).
Proof.
  induction k as [|k IH]; cbn zeta.
  - unfold for_loop. cbn. split; [apply disk_alloc_wf|]. split; [reflexivity|].
    split; [apply functional_extensionality; intros m; reflexivity | intros; lia].
  - rewrite for_loop_S. cbn zeta in IH.
    destruct (for_loop k (particleData_iter P) (disk_alloc n, rnd)) as [d r].
    destruct IH as (Hwf & Hc & Hr & Hrd). cbn [fst snd] in *.
    unfold disk_wf in *. unfold particleData_iter. cbn [fst snd Disk.positions Disk.count].
    split; [by rewrite length_wr3|].
    split; [exact Hc|].
    split; [rewrite Hr, rnd_drop_drop; f_equal; lia|].
    intros j Hj Hn. destruct (decide (j = k)) as [->|Hne].
    + rewrite rd3_wr3_eq by lia. by rewrite Hr.
    + rewrite rd3_wr3_ne by auto. apply Hrd; lia.
Qed.

Lemma disk_spawn_off_axis (P : BlackHoleProps) (rnd : Rand) :
  0 < size P -> 0 <= accretionDiskSize P -> rnd_ok rnd ->
  let p := disk_spawn P rnd in
  0 < sqrt (vx p * vx p + vz p * vz p).
Proof.
  intros Hs HA Hok. cbn zeta. unfold disk_spawn. cbn [vx vz].
  pose proof (Hok 1%nat) as [H0 H1].
  assert (Hr : 0 < disk_spawn_radius P rnd) by (unfold disk_spawn_radius; nra).
  rewrite disk_radius; lra.
Qed.

(** Frames keep the disk well formed and every particle at its radius. *)
Lemma disk_frames_inv (n : nat) (d : Disk.t) (i : nat) :
  disk_wf d -> (i < Disk.count d)%nat ->
  let p := rd3 (Disk.positions d) (i * 3) in
  let q := rd3 (Disk.positions (disk_frames n d)) (i * 3) in
  0 < sqrt (vx p * vx p + vz p * vz p) ->
  disk_wf (disk_frames n d) /\
  Disk.count (disk_frames n d) = Disk.count d /\
  sqrt (vx q * vx q + vz q * vz q) = sqrt (vx p * vx p + vz p * vz p) /\
  vy q = vy p.
Proof.
  cbn zeta. intros Hwf Hi Hr. induction n as [|n (IHwf & IHc & IHr & IHy)]; cbn [disk_frames].
  - tauto.
  - split; [by apply animate_disk_wf|]. split; [exact IHc|].
    rewrite animate_disk_at by (try exact IHwf; lia).
    destruct (disk_update_rotation (rd3 (Disk.positions (disk_frames n d)) (i * 3)))
      as (Hr' & Hy' & _); [lra|].
    split; [lra | congruence].
Qed.

(** C10. On the 2000 disk particles of a black hole of positive size, every
    frame, after any number of earlier frames, acts on each particle as a
    rotation about the y axis: the particle is off the axis, its distance
    [sqrt (x * x + z * z)] from the axis and its y coordinate are unchanged,
    and its polar angle [atan2 z x] is advanced by
    [0.5 / (radius * 0.1) * 0.01]. *)
Theorem disk_frame_is_rotation (P : BlackHoleProps) (rnd : Rand) (n i : nat) :
  0 < size P -> 0 <= accretionDiskSize P -> rnd_ok rnd -> (i < 2000)%nat ->
  let d := disk_frames n (fst (particleData P rnd)) in
  let p := rd3 (Disk.positions d) (i * 3) in
  let p' := rd3 (Disk.positions (animate_disk d)) (i * 3) in
  let radius := sqrt (vx p * vx p + vz p * vz p) in
  let angle := atan2 (vz p) (vx p) in
  let delta := 0.5 / (radius * 0.1) * 0.01 in
  Disk.count d = 2000%nat /\
  0 < radius /\
  sqrt (vx p' * vx p' + vz p' * vz p') = radius /\
  vy p' = vy p /\
  vx p = radius * cos angle /\
  vz p = radius * sin angle /\
  vx p' = radius * cos (angle + delta) /\
  vz p' = radius * sin (angle + delta).
Proof.
  intros Hs HA Hok Hi. cbn zeta. unfold particleData, particleData_n.
  destruct (particleData_loop P 2000 2000 rnd) as (Hwf0 & Hc0 & _ & Hrd0).
  destruct (for_loop 2000 (particleData_iter P) (disk_alloc 2000, rnd)) as [d0 r0].
  cbn [fst snd] in *.
  assert (Hr0 : 0 < sqrt (vx (rd3 (Disk.positions d0) (i * 3)) * vx (rd3 (Disk.positions d0) (i * 3))
                         + vz (rd3 (Disk.positions d0) (i * 3)) * vz (rd3 (Disk.positions d0) (i * 3)))).
  { rewrite Hrd0 by lia. apply disk_spawn_off_axis; [exact Hs | exact HA |].
    eapply rnd_suffix_ok; [|exact Hok]. eexists; reflexivity. }
  destruct (disk_frames_inv n d0 i Hwf0 ltac:(lia) Hr0) as (Hwf & Hc & Hr & _).
  split; [lia|].
  split; [lra|].
  rewrite animate_disk_at by (try exact Hwf; lia).
  apply disk_update_rotation. lra.
Qed.

Lemma disk_frame_is_rotation_witness :
  0 < size defaultProps /\ 0 <= accretionDiskSize defaultProps /\ rnd_ok sample_rnd /\
  Disk.count (disk_frames 3 (fst (particleData defaultProps sample_rnd))) = 2000%nat.
Proof.
  assert (Hs : 0 < size defaultProps) by (cbn; lra).
  assert (HA : 0 <= accretionDiskSize defaultProps) by (cbn; lra).
  split; [exact Hs|]. split; [exact HA|]. split; [exact sample_rnd_ok|].
  exact (proj1 (disk_frame_is_rotation defaultProps sample_rnd 3 0 Hs HA sample_rnd_ok
                  ltac:(lia))).
Defined.

(** * Further properties *)

(** ** Invariants of the stars over the frames *)

(** One more frame: the loop body applied to the star, on a well-formed
    part of the random stream. *)
Lemma star_after_step (P : BlackHoleProps) (rnd : Rand) (n j : nat) :
  rnd_ok rnd -> (j < 500)%nat ->
  exists rnd', rnd_ok rnd' /\
    star_after P rnd (S n) j = fst (star_update P rnd' (star_after P rnd n j)).
Proof.
  intros Hok Hj. unfold star_after, starData. cbn [frames].
  destruct (starData_n_wf 500 P rnd) as [Hwf0 Hc0].
  pose proof (starData_n_suffix 500 P rnd) as Hsuf0.
  destruct (frames_wf P n (starData_n 500 P rnd) Hwf0) as (Hwf & Hc & Hsuf).
  destruct (frames P n (starData_n 500 P rnd)) as [d r]. cbn [fst snd] in *.
  destruct (animate_stars_at P d r j Hwf ltac:(lia)) as (rnd' & Hsuf' & ->).
  exists rnd'. split; [|reflexivity].
  eapply rnd_suffix_ok; [exact Hsuf'|].
  eapply rnd_suffix_ok; [exact Hsuf|].
  eapply rnd_suffix_ok; [exact Hsuf0 | exact Hok].
Qed.

Lemma star_after_0 (P : BlackHoleProps) (rnd : Rand) (j : nat) :
  rnd_ok rnd -> (j < 500)%nat ->
  exists rnd', rnd_ok rnd' /\ star_after P rnd 0 j = spawn_star P rnd'.
Proof.
  intros Hok Hj. unfold star_after, starData. cbn [frames].
  rewrite starData_n_at by exact Hj.
  eexists. split; [|reflexivity].
  eapply rnd_suffix_ok; [|exact Hok]. eexists; reflexivity.
Qed.

(** What holds of every spawned star and is kept by the loop body holds of
    every star after every frame. *)
Lemma star_after_invariant (P : BlackHoleProps) (I : Star -> Prop) (rnd : Rand) :
  rnd_ok rnd ->
  (forall r, rnd_ok r -> I (spawn_star P r)) ->
  (forall r s, rnd_ok r -> I s -> I (fst (star_update P r s))) ->
  forall n j, (j < 500)%nat -> I (star_after P rnd n j).
Proof.
  intros Hok Hspawn Hstep n j Hj. induction n as [|n IH].
  - destruct (star_after_0 P rnd j Hok Hj) as (r & Hr & ->). by apply Hspawn.
  - destruct (star_after_step P rnd n j Hok Hj) as (r & Hr & ->). by apply Hstep.
Qed.

Lemma magnitude_zero : magnitude (V3 0 0 0) = 0.
Proof.
  unfold magnitude, dot. cbn [vx vy vz].
  replace (0 * 0 + 0 * 0 + 0 * 0) with 0 by ring. apply sqrt_0.
Qed.

Lemma kick_bound_nonneg (P : BlackHoleProps) :
  0 < size P -> 0 <= gravitationalStrength P -> 0 <= kick_bound P.
Proof.
  intros Hs Hg. unfold kick_bound. cbn zeta.
  set (h := size P * 1.5). assert (Hh : 0 < h) by (unfold h; lra).
  assert (HF : 0 <= gravitationalStrength P * 0.5 / (h * h)).
  { apply Rmult_le_pos; [lra|]. left. apply Rinv_0_lt_compat. nra. }
  pose proof (sqrt_pos (gravitationalStrength P * 0.5 / (h * h) / h)). lra.
Qed.

(** The loop body keeps a velocity within [99 * kick_bound]. *)
Lemma star_update_speed (P : BlackHoleProps) (r : Rand) (s : Star) :
  0 < size P -> 0 <= gravitationalStrength P ->
  magnitude (vel s) <= 99 * kick_bound P ->
  magnitude (vel (fst (star_update P r s))) <= 99 * kick_bound P.
Proof.
  intros Hs Hg Hv. pose proof (kick_bound_nonneg P Hs Hg) as HK.
  unfold star_update.
  destruct (Rlt_dec (distanceToCenter (pos s)) (size P * 1.5)) as [Hlt|Hout].
  - cbn [respawn fst vel]. rewrite magnitude_zero. lra.
  - cbn [infall fst vel]. rewrite infall_velocity_damped, magnitude_damp.
    pose proof (infall_increment_bound P (pos s) Hs Hg Hout) as Hinc.
    pose proof (magnitude_triangle (vel s) (infall_increment P (pos s))) as Ht.
    lra.
Qed.

(** X1. Speed limit.  On a black hole of positive size and nonnegative
    gravitational strength no star ever moves faster than
    [99 * kick_bound]: after any number of frames the velocity magnitude of
    every star is at most that bound, which depends on the props only. *)
Theorem star_speed_limit (P : BlackHoleProps) (rnd : Rand) (n j : nat) :
  0 < size P -> 0 <= gravitationalStrength P -> rnd_ok rnd -> (j < 500)%nat ->
  magnitude (vel (star_after P rnd n j)) <= 99 * kick_bound P.
Proof.
  intros Hs Hg Hok Hj.
  apply (star_after_invariant P (fun s => magnitude (vel s) <= 99 * kick_bound P) rnd Hok);
    [| |exact Hj].
  - intros r _. cbn [spawn_star vel]. rewrite magnitude_zero.
    pose proof (kick_bound_nonneg P Hs Hg). lra.
  - intros r s _. by apply star_update_speed.
Qed.

Lemma star_speed_limit_witness :
  0 < size exploreProps /\ 0 <= gravitationalStrength exploreProps /\
  rnd_ok sample_rnd /\
  magnitude (vel (star_after exploreProps sample_rnd 7 3)) <= 99 * kick_bound exploreProps.
Proof.
  assert (Hs : 0 < size exploreProps) by (cbn; lra).
  assert (Hg : 0 <= gravitationalStrength exploreProps) by (cbn; lra).
  split; [exact Hs|]. split; [exact Hg|]. split; [exact sample_rnd_ok|].
  apply (star_speed_limit exploreProps sample_rnd 7 3 Hs Hg sample_rnd_ok). lia.
Defined.

Lemma magnitude_reverse_triangle (a b : Vec3) :
  magnitude a - magnitude b <= magnitude (vadd a b).
Proof.
  pose proof (magnitude_triangle (vadd a b) (V3 (- vx b) (- vy b) (- vz b))) as Ht.
  replace (vadd (vadd a b) (V3 (- vx b) (- vy b) (- vz b))) with a in Ht
    by (destruct a, b; unfold vadd; cbn; f_equal; ring).
  replace (magnitude (V3 (- vx b) (- vy b) (- vz b))) with (magnitude b) in Ht.
  - lra.
  - unfold magnitude, dot. cbn [vx vy vz]. f_equal. ring.
Qed.

(** In a frame that does not respawn it, a star moves by its new velocity,
    of magnitude at most [99 * kick_bound]. *)
Lemma star_step_displacement (P : BlackHoleProps) (rnd : Rand) (k j : nat) :
  0 < size P -> 0 <= gravitationalStrength P -> rnd_ok rnd -> (j < 500)%nat ->
  ~ distanceToCenter (pos (star_after P rnd k j)) < size P * 1.5 ->
  distanceToCenter (pos (star_after P rnd k j)) - 99 * kick_bound P
    <= distanceToCenter (pos (star_after P rnd (S k) j))
    <= distanceToCenter (pos (star_after P rnd k j)) + 99 * kick_bound P.
Proof.
  intros Hs Hg Hok Hj Hout.
  assert (Hv : magnitude (vel (star_after P rnd (S k) j)) <= 99 * kick_bound P).
  { apply (star_after_invariant P (fun s => magnitude (vel s) <= 99 * kick_bound P)
             rnd Hok); [| |exact Hj].
    - intros r _. cbn [spawn_star vel]. rewrite magnitude_zero.
      pose proof (kick_bound_nonneg P Hs Hg). lra.
    - intros r s _. by apply star_update_speed. }
  destruct (star_after_step P rnd k j Hok Hj) as (r & _ & Heq).
  rewrite Heq, star_update_outside in Hv |- * by exact Hout.
  cbn [infall fst pos vel] in Hv |- *.
  set (p := pos (star_after P rnd k j)) in *.
  set (v := infall_velocity P p (distanceToCenter p) (vel (star_after P rnd k j))) in *.
  pose proof (magnitude_triangle p v) as H1.
  pose proof (magnitude_reverse_triangle p v) as H2.
  change (distanceToCenter (vadd p v)) with (magnitude (vadd p v)).
  change (distanceToCenter p) with (magnitude p). lra.
Qed.

(** X2. No tunnelling.  In a frame that does not respawn it, a star moves by
    its new velocity, so its distance to the centre changes by at most
    [99 * kick_bound]; hence after any number of frames every star is at
    least [min (2 A) (1.5 size - 99 kick_bound)] away from the centre. *)
Theorem star_distance_floor (P : BlackHoleProps) (rnd : Rand) (n j : nat) :
  0 < size P -> 0 <= gravitationalStrength P -> 0 < accretionDiskSize P ->
  rnd_ok rnd -> (j < 500)%nat ->
  let d k := distanceToCenter (pos (star_after P rnd k j)) in
  (~ d n < size P * 1.5 ->
     d n - 99 * kick_bound P <= d (S n) <= d n + 99 * kick_bound P) /\
  Rmin (accretionDiskSize P * 2) (size P * 1.5 - 99 * kick_bound P) <= d n.
Proof.
  intros Hs Hg HA Hok Hj. cbn zeta.
  split; [by apply star_step_displacement|].
  destruct n as [|n].
  - destruct (star_after_0 P rnd j Hok Hj) as (r & Hr & ->). cbn [spawn_star pos].
    pose proof (distance_shell_bounds (accretionDiskSize P) r HA Hr).
    pose proof (Rmin_l (accretionDiskSize P * 2) (size P * 1.5 - 99 * kick_bound P)). lra.
  - destruct (Rlt_dec (distanceToCenter (pos (star_after P rnd n j))) (size P * 1.5))
      as [Hlt|Hout].
    + destruct (star_after_step P rnd n j Hok Hj) as (r & Hr & ->).
      rewrite star_update_below by exact Hlt. cbn [respawn fst pos].
      pose proof (distance_shell_bounds (accretionDiskSize P) r HA Hr).
      pose proof (Rmin_l (accretionDiskSize P * 2) (size P * 1.5 - 99 * kick_bound P)). lra.
    + pose proof (star_step_displacement P rnd n j Hs Hg Hok Hj Hout).
      pose proof (Rmin_r (accretionDiskSize P * 2) (size P * 1.5 - 99 * kick_bound P)). lra.
Qed.

(** On the first black hole of the explore page the floor is above 2. *)
Lemma explore_kick_bound : 99 * kick_bound exploreProps < 4.
Proof.
  unfold kick_bound. cbn [size gravitationalStrength exploreProps].
  assert (Hq : sqrt (0.6 * 0.5 / (4 * 1.5 * (4 * 1.5)) / (4 * 1.5)) <= 0.0373).
  { rewrite <- (sqrt_square 0.0373) by lra. apply sqrt_le_1_alt. lra. }
  lra.
Qed.

Lemma star_distance_floor_witness :
  0 < size exploreProps /\ 0 <= gravitationalStrength exploreProps /\
  0 < accretionDiskSize exploreProps /\ rnd_ok sample_rnd /\
  2 <= distanceToCenter (pos (star_after exploreProps sample_rnd 7 3)).
Proof.
  assert (Hs : 0 < size exploreProps) by (cbn; lra).
  assert (Hg : 0 <= gravitationalStrength exploreProps) by (cbn; lra).
  assert (HA : 0 < accretionDiskSize exploreProps) by (cbn; lra).
  split; [exact Hs|]. split; [exact Hg|]. split; [exact HA|]. split; [exact sample_rnd_ok|].
  pose proof (proj2 (star_distance_floor exploreProps sample_rnd 7 3 Hs Hg HA sample_rnd_ok
                       ltac:(lia))) as H.
  pose proof explore_kick_bound as HK.
  cbn [size accretionDiskSize exploreProps] in H.
  unfold Rmin in H. destruct (Rle_dec _ _) in H; lra.
Defined.

(** X3. Distance ceiling.  A star cannot leave faster than the speed limit
    allows: after [n] frames every star is closer to the centre than
    [3 A + n * 99 * kick_bound]. *)
Theorem star_distance_ceiling (P : BlackHoleProps) (rnd : Rand) (n j : nat) :
  0 < size P -> 0 <= gravitationalStrength P -> 0 < accretionDiskSize P ->
  rnd_ok rnd -> (j < 500)%nat ->
  distanceToCenter (pos (star_after P rnd n j))
    < accretionDiskSize P * 3 + INR n * (99 * kick_bound P).
Proof.
  intros Hs Hg HA Hok Hj.
  pose proof (kick_bound_nonneg P Hs Hg) as HK.
  induction n as [|n IH].
  - destruct (star_after_0 P rnd j Hok Hj) as (r & Hr & ->). cbn [spawn_star pos INR].
    pose proof (distance_shell_bounds (accretionDiskSize P) r HA Hr). lra.
  - rewrite S_INR. pose proof (pos_INR n) as Hn.
    destruct (Rlt_dec (distanceToCenter (pos (star_after P rnd n j))) (size P * 1.5))
      as [Hlt|Hout].
    + destruct (star_after_step P rnd n j Hok Hj) as (r & Hr & ->).
      rewrite star_update_below by exact Hlt. cbn [respawn fst pos].
      pose proof (distance_shell_bounds (accretionDiskSize P) r HA Hr). nra.
    + pose proof (star_step_displacement P rnd n j Hs Hg Hok Hj Hout). lra.
Qed.

Lemma star_distance_ceiling_witness :
  0 < size exploreProps /\ 0 <= gravitationalStrength exploreProps /\
  0 < accretionDiskSize exploreProps /\ rnd_ok sample_rnd /\
  distanceToCenter (pos (star_after exploreProps sample_rnd 7 3)) < 64.
Proof.
  assert (Hs : 0 < size exploreProps) by (cbn; lra).
  assert (Hg : 0 <= gravitationalStrength exploreProps) by (cbn; lra).
  assert (HA : 0 < accretionDiskSize exploreProps) by (cbn; lra).
  split; [exact Hs|]. split; [exact Hg|]. split; [exact HA|]. split; [exact sample_rnd_ok|].
  pose proof (star_distance_ceiling exploreProps sample_rnd 7 3 Hs Hg HA sample_rnd_ok
                ltac:(lia)) as H.
  pose proof explore_kick_bound as HK.
  cbn [accretionDiskSize exploreProps] in H.
  replace (INR 7) with 7 in H by (cbn; lra).
  lra.
Defined.

(** ** Orbit sense *)

Lemma infall_momentum_law (P : BlackHoleProps) (rnd : Rand) (s : Star) :
  let d := distanceToCenter (pos s) in
  let s' := fst (infall P rnd s) in
  angular_momentum_y (pos s') (vel s')
  = 0.99 * (angular_momentum_y (pos s) (vel s)
            + (vx (pos s) * vx (pos s) + vz (pos s) * vz (pos s)) / d
              * sqrt (forceMagnitude P d / d)).
Proof.
  cbn zeta. unfold infall. cbn [fst pos vel].
  set (d := distanceToCenter (pos s)).
  unfold infall_velocity, orbitalSpeed, direction, gravity_increment,
    orbital_increment, damp, vadd, angular_momentum_y. cbn [vx vy vz].
  set (q := sqrt (forceMagnitude P d / d)).
  unfold Rdiv. lra.
Qed.

Lemma orbital_torque_nonneg (P : BlackHoleProps) (p : Vec3) :
  0 < distanceToCenter p ->
  0 <= (vx p * vx p + vz p * vz p) / distanceToCenter p
       * sqrt (forceMagnitude P (distanceToCenter p) / distanceToCenter p).
Proof.
  intros Hpos. apply Rmult_le_pos; [|apply sqrt_pos].
  apply Rmult_le_pos; [nra|]. left. by apply Rinv_0_lt_compat.
Qed.

(** X4. In the infall branch (black hole of positive size and nonnegative
    gravitational strength) the angular momentum about the y axis, taken at
    the new position and velocity, is 0.99 times the old one plus
    [(x * x + z * z) / distance * sqrt (forceMagnitude / distance)]: gravity
    contributes nothing and the orbital component always turns the star the
    same way. *)
Theorem infall_angular_momentum (P : BlackHoleProps) (rnd : Rand) (s : Star) :
  0 < size P -> 0 <= gravitationalStrength P ->
  ~ distanceToCenter (pos s) < size P * 1.5 ->
  let d := distanceToCenter (pos s) in
  let x := vx (pos s) in
  let z := vz (pos s) in
  let s' := fst (star_update P rnd s) in
  angular_momentum_y (pos s') (vel s')
    = 0.99 * (angular_momentum_y (pos s) (vel s)
              + (x * x + z * z) / d * sqrt (forceMagnitude P d / d)) /\
  0.99 * angular_momentum_y (pos s) (vel s) <= angular_momentum_y (pos s') (vel s').
Proof.
  intros Hs Hg Hout. cbn zeta.
  destruct (outside_positive P (pos s) Hs Hout) as [_ Hpos].
  rewrite star_update_outside by exact Hout.
  pose proof (infall_momentum_law P rnd s) as Heq. cbn zeta in Heq.
  split; [exact Heq|].
  rewrite Heq. pose proof (orbital_torque_nonneg P (pos s) Hpos). lra.
Qed.

Lemma infall_angular_momentum_witness :
  0 < size smallProps /\ 0 <= gravitationalStrength smallProps /\
  ~ distanceToCenter (pos (mkStar (V3 1 0 0) (V3 0 0 0) 0.25 7)) < size smallProps * 1.5 /\
  0.99 * angular_momentum_y (V3 1 0 0) (V3 0 0 0)
    <= angular_momentum_y
         (pos (fst (star_update smallProps sample_rnd (mkStar (V3 1 0 0) (V3 0 0 0) 0.25 7))))
         (vel (fst (star_update smallProps sample_rnd (mkStar (V3 1 0 0) (V3 0 0 0) 0.25 7)))).
Proof.
  assert (Hd : distanceToCenter (V3 1 0 0) = 1) by (apply distance_on_x_axis; lra).
  assert (Hs : 0 < size smallProps) by (cbn; lra).
  assert (Hg : 0 <= gravitationalStrength smallProps) by (cbn; lra).
  assert (Hout : ~ distanceToCenter (pos (mkStar (V3 1 0 0) (V3 0 0 0) 0.25 7))
                   < size smallProps * 1.5).
  { cbn [pos]. rewrite Hd. cbn. lra. }
  split; [exact Hs|]. split; [exact Hg|]. split; [exact Hout|].
  exact (proj2 (infall_angular_momentum smallProps sample_rnd
                  (mkStar (V3 1 0 0) (V3 0 0 0) 0.25 7) Hs Hg Hout)).
Defined.

(** X5. Every star turns the same way.  On a black hole of positive size and
    nonnegative gravitational strength the angular momentum about the y axis
    of every star is nonnegative after any number of frames. *)
Theorem stars_turn_one_way (P : BlackHoleProps) (rnd : Rand) (n j : nat) :
  0 < size P -> 0 <= gravitationalStrength P -> rnd_ok rnd -> (j < 500)%nat ->
  0 <= angular_momentum_y (pos (star_after P rnd n j)) (vel (star_after P rnd n j)).
Proof.
  intros Hs Hg Hok Hj.
  apply (star_after_invariant P (fun s => 0 <= angular_momentum_y (pos s) (vel s)) rnd Hok);
    [| |exact Hj].
  - intros r _. unfold angular_momentum_y. cbn [spawn_star pos vel vx vz]. lra.
  - intros r s _ HL.
    destruct (Rlt_dec (distanceToCenter (pos s)) (size P * 1.5)) as [Hlt|Hout].
    + rewrite star_update_below by exact Hlt.
      unfold angular_momentum_y. cbn [respawn fst pos vel vx vz]. lra.
    + destruct (outside_positive P (pos s) Hs Hout) as [_ Hpos].
      rewrite star_update_outside by exact Hout.
      pose proof (infall_momentum_law P r s) as Heq. cbn zeta in Heq. rewrite Heq.
      pose proof (orbital_torque_nonneg P (pos s) Hpos). lra.
Qed.

Lemma stars_turn_one_way_witness :
  0 < size exploreProps /\ 0 <= gravitationalStrength exploreProps /\ rnd_ok sample_rnd /\
  0 <= angular_momentum_y (pos (star_after exploreProps sample_rnd 7 3))
         (vel (star_after exploreProps sample_rnd 7 3)).
Proof.
  assert (Hs : 0 < size exploreProps) by (cbn; lra).
  assert (Hg : 0 <= gravitationalStrength exploreProps) by (cbn; lra).
  split; [exact Hs|]. split; [exact Hg|]. split; [exact sample_rnd_ok|].
  apply (stars_turn_one_way exploreProps sample_rnd 7 3 Hs Hg sample_rnd_ok). lia.
Defined.

(** ** Sizes, lifetimes and colours of the stars *)

(** X6. For a black hole of positive size, positive accretion-disk extent
    and nonnegative gravitational strength (so that no division by zero and
    no square root of a negative number occurs in the frames), after any
    number of frames every star has a size of at least 0.02 and a
    nonnegative lifetime counter. *)
Theorem star_size_and_lifetime_floor (P : BlackHoleProps) (rnd : Rand) (n j : nat) :
  0 < size P -> 0 <= gravitationalStrength P ->
  0 < accretionDiskSize P -> rnd_ok rnd -> (j < 500)%nat ->
  0.02 <= ssize (star_after P rnd n j) /\ 0 <= lifetime (star_after P rnd n j).
Proof.
  intros Hsize Hg HA Hok Hj.
  apply (star_after_invariant P (fun s => 0.02 <= ssize s /\ 0 <= lifetime s) rnd Hok);
    [| |exact Hj].
  - intros r Hr. cbn [spawn_star ssize lifetime].
    pose proof (Hr 3%nat). pose proof (Hr 5%nat). lra.
  - intros r s Hr [Hsz Hl]. unfold star_update.
    destruct (Rlt_dec (distanceToCenter (pos s)) (size P * 1.5)) as [Hlt|Hout].
    + cbn [respawn fst ssize lifetime]. pose proof (Hr 3%nat). lra.
    + cbn [infall fst ssize lifetime]. unfold shrunk_size.
      pose proof (Hr 0%nat).
      pose proof (Rmax_l 0.1 (normalizedDist P (distanceToCenter (pos s)))).
      split; [nra | lra].
Qed.

Lemma star_size_and_lifetime_floor_witness :
  0 < size exploreProps /\ 0 <= gravitationalStrength exploreProps /\
  0 < accretionDiskSize exploreProps /\ rnd_ok sample_rnd /\
  0.02 <= ssize (star_after exploreProps sample_rnd 7 3).
Proof.
  assert (Hsize : 0 < size exploreProps) by (cbn; lra).
  assert (Hg : 0 <= gravitationalStrength exploreProps) by (cbn; lra).
  assert (HA : 0 < accretionDiskSize exploreProps) by (cbn; lra).
  split; [exact Hsize|]. split; [exact Hg|].
  split; [exact HA|]. split; [exact sample_rnd_ok|].
  apply (star_size_and_lifetime_floor exploreProps sample_rnd 7 3 Hsize Hg HA sample_rnd_ok).
  lia.
Defined.

(** X7. Initial attributes.  [starData] uses exactly 3000 draws and leaves
    every star at rest, with a size in [[0.2, 0.5)] and a lifetime counter
    in [[0, 100)]. *)
Theorem starData_initial_attributes (P : BlackHoleProps) (rnd : Rand) (j : nat) :
  rnd_ok rnd -> (j < 500)%nat ->
  let s := star_after P rnd 0 j in
  snd (starData P rnd) = rnd_drop 3000 rnd /\
  Stars.count (fst (starData P rnd)) = 500%nat /\
  vel s = V3 0 0 0 /\
  0.2 <= ssize s < 0.5 /\
  0 <= lifetime s < 100.
Proof.
  intros Hok Hj. cbn zeta. unfold star_after, starData. cbn [frames].
  destruct (starData_loop P 500 500 rnd) as (_ & Hc & Hr & Hrd).
  split; [exact Hr|]. split; [exact Hc|].
  unfold starData_n. rewrite (Hrd j Hj Hj). cbn [spawn_star vel ssize lifetime].
  assert (Hok' : rnd_ok (rnd_drop (j * 6) rnd)).
  { eapply rnd_suffix_ok; [|exact Hok]. eexists; reflexivity. }
  pose proof (Hok' 3%nat). pose proof (Hok' 5%nat).
  split; [reflexivity|]. lra.
Qed.

Lemma starData_initial_attributes_witness :
  rnd_ok sample_rnd /\ vel (star_after exploreProps sample_rnd 0 3) = V3 0 0 0.
Proof.
  split; [exact sample_rnd_ok|].
  apply (starData_initial_attributes exploreProps sample_rnd 3 sample_rnd_ok). lia.
Defined.

Lemma starData_loop_colors (P : BlackHoleProps) (n k : nat) (rnd : Rand) :
  forall j, (j < k)%nat -> (j < n)%nat ->
    rd3 (Stars.colors (fst (for_loop k (starData_iter P) (stars_alloc n, rnd)))) (j * 3)
    = star_color (rnd (j * 6 + 4)%nat).
Proof.
  induction k as [|k IH]; intros j Hj Hn; [lia|].
  rewrite for_loop_S.
  destruct (starData_loop P n k rnd) as (Hwf & Hc & Hr & _).
  destruct (for_loop k (starData_iter P) (stars_alloc n, rnd)) as [d r].
  cbn [fst snd] in *. destruct Hwf as (_ & _ & _ & Hcol & _).
  unfold starData_iter. cbn [fst Stars.colors].
  destruct (decide (j = k)) as [->|Hne].
  - rewrite rd3_wr3_eq by lia. rewrite Hr. reflexivity.
  - rewrite rd3_wr3_ne by auto. apply IH; lia.
Qed.

Lemma frames_colors (P : BlackHoleProps) (n : nat) (st : Stars.t * Rand) :
  Stars.colors (fst (frames P n st)) = Stars.colors (fst st).
Proof.
  induction n as [|n IH]; cbn [frames]; [reflexivity|].
  rewrite <- IH.
  apply (star_fold_inv P (seq 0 (Stars.count (fst (frames P n st)))) (frames P n st)).
Qed.

(** X8. Star colours.  After any number of frames the colour of star [j] is
    the one chosen at its initial spawn from its fifth draw: white (1, 1, 1)
    when the draw is below 0.5, and (1, 0.9, 0.6) otherwise; respawns do not
    change it. *)
Theorem star_colors_fixed_at_spawn (P : BlackHoleProps) (rnd : Rand) (n j : nat) :
  (j < 500)%nat ->
  let c := rd3 (Stars.colors (fst (frames P n (starData P rnd)))) (j * 3) in
  let colorChoice := rnd (j * 6 + 4)%nat in
  (colorChoice < 0.5 -> c = V3 1 1 1) /\
  (~ colorChoice < 0.5 -> c = V3 1 0.9 0.6).
Proof.
  intros Hj. cbn zeta. rewrite frames_colors. unfold starData, starData_n.
  rewrite (starData_loop_colors P 500 500 rnd j Hj Hj). unfold star_color.
  destruct (Rlt_dec (rnd (j * 6 + 4)%nat) 0.5); split; intros H;
    solve [reflexivity | contradiction].
Qed.

Lemma star_colors_fixed_at_spawn_witness :
  rd3 (Stars.colors (fst (frames exploreProps 7 (starData exploreProps sample_rnd)))) (3 * 3)
  = V3 1 1 1.
Proof.
  apply (star_colors_fixed_at_spawn exploreProps sample_rnd 7 3); [lia|].
  cbn. lra.
Defined.

(** ** Respawn patterns *)

(** X9. When the horizon lies inside the spawn shell
    ([size * 1.5 <= accretionDiskSize * 2]) no star is below the horizon
    right after its initial spawn, and no star is respawned in two
    consecutive frames. *)
Theorem no_consecutive_respawn (P : BlackHoleProps) (rnd : Rand) (n j : nat) :
  0 < accretionDiskSize P -> size P * 1.5 <= accretionDiskSize P * 2 ->
  rnd_ok rnd -> (j < 500)%nat ->
  let below k := distanceToCenter (pos (star_after P rnd k j)) < size P * 1.5 in
  ~ below 0%nat /\ (below n -> ~ below (S n)).
Proof.
  intros HA Hh Hok Hj. cbn zeta. split.
  - destruct (star_after_0 P rnd j Hok Hj) as (r & Hr & ->). cbn [spawn_star pos].
    pose proof (distance_shell_bounds (accretionDiskSize P) r HA Hr). lra.
  - intros Hlt. destruct (star_after_step P rnd n j Hok Hj) as (r & Hr & ->).
    rewrite star_update_below by exact Hlt. cbn [respawn fst pos].
    pose proof (distance_shell_bounds (accretionDiskSize P) r HA Hr). lra.
Qed.

Lemma no_consecutive_respawn_witness :
  0 < accretionDiskSize featureProps /\
  size featureProps * 1.5 <= accretionDiskSize featureProps * 2 /\
  rnd_ok sample_rnd /\
  ~ distanceToCenter (pos (star_after featureProps sample_rnd 0 3)) < size featureProps * 1.5.
Proof.
  assert (HA : 0 < accretionDiskSize featureProps) by (cbn; lra).
  assert (Hh : size featureProps * 1.5 <= accretionDiskSize featureProps * 2) by (cbn; lra).
  split; [exact HA|]. split; [exact Hh|]. split; [exact sample_rnd_ok|].
  exact (proj1 (no_consecutive_respawn featureProps sample_rnd 0 3 HA Hh sample_rnd_ok
                  ltac:(lia))).
Defined.

(** A black hole whose horizon swallows the spawn shell. *)
Lemma swallowed_shell_invariant (P : BlackHoleProps) (rnd : Rand) (n j : nat) :
  0 < accretionDiskSize P -> rnd_ok rnd -> (j < 500)%nat ->
  accretionDiskSize P * 3 <= size P * 1.5 ->
  (fun s => accretionDiskSize P * 2 <= distanceToCenter (pos s) < accretionDiskSize P * 3
            /\ vel s = V3 0 0 0) (star_after P rnd n j).
Proof.
  intros HA Hok Hj Hh.
  apply star_after_invariant; [exact Hok | | | exact Hj].
  - intros r Hr. cbn [spawn_star pos vel]. split; [|reflexivity].
    by apply distance_shell_bounds.
  - intros r s Hr [Hd _].
    rewrite star_update_below by lra. cbn [respawn fst pos vel]. split; [|reflexivity].
    by apply distance_shell_bounds.
Qed.

(** X10. When the horizon swallows the spawn shell
    ([accretionDiskSize * 3 <= size * 1.5]) the simulation degenerates: at
    every frame every star is below the horizon, is respawned on the shell,
    and never acquires a velocity. *)
Theorem swallowed_shell_respawns_always (P : BlackHoleProps) (rnd : Rand) (n j : nat) :
  0 < accretionDiskSize P -> accretionDiskSize P * 3 <= size P * 1.5 ->
  rnd_ok rnd -> (j < 500)%nat ->
  let s := star_after P rnd n j in
  distanceToCenter (pos s) < size P * 1.5 /\
  accretionDiskSize P * 2 <= distanceToCenter (pos s) /\
  vel s = V3 0 0 0 /\
  (forall r, star_update P r s = respawn P r).
Proof.
  intros HA Hh Hok Hj. cbn zeta.
  destruct (swallowed_shell_invariant P rnd n j HA Hok Hj Hh) as [[Hlo Hhi] Hv].
  split; [lra|]. split; [exact Hlo|]. split; [exact Hv|].
  intros r. apply star_update_below. lra.
Qed.

Lemma swallowed_shell_respawns_always_witness :
  let P := {| size := 3; accretionDiskSize := 1; gravitationalStrength := 0.5 |} in
  0 < accretionDiskSize P /\ accretionDiskSize P * 3 <= size P * 1.5 /\ rnd_ok sample_rnd /\
  vel (star_after P sample_rnd 7 3) = V3 0 0 0.
Proof.
  cbn zeta.
  set (P := {| size := 3; accretionDiskSize := 1; gravitationalStrength := 0.5 |}).
  assert (HA : 0 < accretionDiskSize P) by (cbn; lra).
  assert (Hh : accretionDiskSize P * 3 <= size P * 1.5) by (cbn; lra).
  split; [exact HA|]. split; [exact Hh|]. split; [exact sample_rnd_ok|].
  apply (swallowed_shell_respawns_always P sample_rnd 7 3 HA Hh sample_rnd_ok). lia.
Defined.

(** ** The accretion disk over the frames *)

(** [disk_update] on a point given by its polar angle: the angle advances by
    [0.5 / (r * 0.1) * 0.01]. *)
Lemma disk_update_polar (a r y : R) :
  0 < r ->
  disk_update (V3 (cos a * r) y (sin a * r))
  = V3 (cos (a + 0.5 / (r * 0.1) * 0.01) * r) y (sin (a + 0.5 / (r * 0.1) * 0.01) * r).
Proof.
  intros Hr. unfold disk_update. cbn [vx vy vz].
  assert (Hrad : sqrt (cos a * r * (cos a * r) + sin a * r * (sin a * r)) = r)
    by (apply disk_radius; lra).
  destruct (atan2_polar (cos a * r) (sin a * r)) as [Hc Hs]; [rewrite Hrad; exact Hr|].
  rewrite Hrad in *.
  assert (Hc' : cos (atan2 (sin a * r) (cos a * r)) = cos a) by nra.
  assert (Hs' : sin (atan2 (sin a * r) (cos a * r)) = sin a) by nra.
  rewrite !cos_plus, !sin_plus, Hc', Hs'. reflexivity.
Qed.

Lemma disk_spawn_radius_bounds (P : BlackHoleProps) (rnd : Rand) :
  0 <= accretionDiskSize P -> rnd_ok rnd ->
  size P * 1.5 <= disk_spawn_radius P rnd <= size P * 1.5 + accretionDiskSize P.
Proof.
  intros HA Hok. unfold disk_spawn_radius. pose proof (Hok 1%nat). nra.
Qed.

(** Where disk particle [j] is after [n] frames. *)
Lemma disk_after_polar (P : BlackHoleProps) (rnd : Rand) (n j : nat) :
  0 < size P -> 0 <= accretionDiskSize P -> rnd_ok rnd -> (j < 2000)%nat ->
  let r := disk_spawn_radius P (rnd_drop (j * 4) rnd) in
  let a := rnd (j * 4)%nat * PI * 2 + INR n * (0.5 / (r * 0.1) * 0.01) in
  disk_after P rnd n j = V3 (cos a * r) ((rnd (j * 4 + 2)%nat - 0.5) * 0.5) (sin a * r).
Proof.
  intros Hs HA Hok Hj. cbn zeta. unfold disk_after, particleData, particleData_n.
  destruct (particleData_loop P 2000 2000 rnd) as (Hwf0 & Hc0 & _ & Hrd0).
  destruct (for_loop 2000 (particleData_iter P) (disk_alloc 2000, rnd)) as [d0 r0].
  cbn [fst snd] in *.
  assert (Hok' : rnd_ok (rnd_drop (j * 4) rnd)).
  { eapply rnd_suffix_ok; [|exact Hok]. eexists; reflexivity. }
  pose proof (disk_spawn_radius_bounds P _ HA Hok') as Hrb.
  set (r := disk_spawn_radius P (rnd_drop (j * 4) rnd)) in *.
  assert (Hr : 0 < r) by lra.
  assert (H0 : rd3 (Disk.positions d0) (j * 3)
               = V3 (cos (rnd (j * 4)%nat * PI * 2) * r)
                    ((rnd (j * 4 + 2)%nat - 0.5) * 0.5)
                    (sin (rnd (j * 4)%nat * PI * 2) * r)).
  { rewrite Hrd0 by lia. unfold disk_spawn. fold r. unfold rnd_drop.
    rewrite Nat.add_0_r. reflexivity. }
  assert (Hpos0 : 0 < sqrt (vx (rd3 (Disk.positions d0) (j * 3)) * vx (rd3 (Disk.positions d0) (j * 3))
                           + vz (rd3 (Disk.positions d0) (j * 3)) * vz (rd3 (Disk.positions d0) (j * 3)))).
  { rewrite H0. cbn [vx vz]. rewrite disk_radius; lra. }
  induction n as [|n IH].
  - cbn [disk_frames INR]. rewrite H0. f_equal; f_equal; f_equal; lra.
  - destruct (disk_frames_inv n d0 j Hwf0 ltac:(lia) Hpos0) as (Hwf & Hc & _).
    cbn [disk_frames]. rewrite animate_disk_at by (try exact Hwf; lia).
    rewrite IH, disk_update_polar by exact Hr.
    rewrite S_INR. f_equal; f_equal; f_equal; lra.
Qed.

(** X11. The accretion disk keeps its shape.  On a black hole of positive
    size, after any number of frames every one of the 2000 disk particles is
    at a distance from the axis between [size * 1.5] and
    [size * 1.5 + accretionDiskSize], and at a height in [[-0.25, 0.25)]. *)
Theorem disk_stays_in_annulus (P : BlackHoleProps) (rnd : Rand) (n j : nat) :
  0 < size P -> 0 <= accretionDiskSize P -> rnd_ok rnd -> (j < 2000)%nat ->
  let p := disk_after P rnd n j in
  size P * 1.5 <= sqrt (vx p * vx p + vz p * vz p) <= size P * 1.5 + accretionDiskSize P /\
  -0.25 <= vy p < 0.25.
Proof.
  intros Hs HA Hok Hj. cbn zeta.
  rewrite (disk_after_polar P rnd n j Hs HA Hok Hj). cbn [vx vy vz].
  assert (Hok' : rnd_ok (rnd_drop (j * 4) rnd)).
  { eapply rnd_suffix_ok; [|exact Hok]. eexists; reflexivity. }
  pose proof (disk_spawn_radius_bounds P _ HA Hok') as Hrb.
  rewrite disk_radius by lra.
  split; [exact Hrb|]. pose proof (Hok (j * 4 + 2)%nat). lra.
Qed.

Lemma disk_stays_in_annulus_witness :
  0 < size exploreProps /\ 0 <= accretionDiskSize exploreProps /\ rnd_ok sample_rnd /\
  -0.25 <= vy (disk_after exploreProps sample_rnd 7 3) < 0.25.
Proof.
  assert (Hs : 0 < size exploreProps) by (cbn; lra).
  assert (HA : 0 <= accretionDiskSize exploreProps) by (cbn; lra).
  split; [exact Hs|]. split; [exact HA|]. split; [exact sample_rnd_ok|].
  exact (proj2 (disk_stays_in_annulus exploreProps sample_rnd 7 3 Hs HA sample_rnd_ok
                  ltac:(lia))).
Defined.

(** X12. Closed form of the disk animation.  After [n] frames disk particle
    [j], spawned at angle [a0] and radius [r], is at
    [(cos (a0 + n * w) * r, y0, sin (a0 + n * w) * r)] with the per-frame
    angle [w = 0.5 / (r * 0.1) * 0.01 = 0.05 / r]: [n] frames rotate it by
    [n] times the one-frame angle, which is positive and at most
    [0.05 / (size * 1.5)]. *)
Theorem disk_rotation_closed_form (P : BlackHoleProps) (rnd : Rand) (n j : nat) :
  0 < size P -> 0 <= accretionDiskSize P -> rnd_ok rnd -> (j < 2000)%nat ->
  let r := disk_spawn_radius P (rnd_drop (j * 4) rnd) in
  let a0 := rnd (j * 4)%nat * PI * 2 in
  let y0 := (rnd (j * 4 + 2)%nat - 0.5) * 0.5 in
  let w := 0.5 / (r * 0.1) * 0.01 in
  disk_after P rnd n j = V3 (cos (a0 + INR n * w) * r) y0 (sin (a0 + INR n * w) * r) /\
  w = 0.05 / r /\
  0 < w <= 0.05 / (size P * 1.5).
Proof.
  intros Hs HA Hok Hj. cbn zeta.
  split; [by apply disk_after_polar|].
  assert (Hok' : rnd_ok (rnd_drop (j * 4) rnd)).
  { eapply rnd_suffix_ok; [|exact Hok]. eexists; reflexivity. }
  pose proof (disk_spawn_radius_bounds P _ HA Hok') as Hrb.
  set (r := disk_spawn_radius P (rnd_drop (j * 4) rnd)) in *.
  assert (Hr : 0 < r) by lra.
  assert (Hw : 0.5 / (r * 0.1) * 0.01 = 0.05 / r).
  { unfold Rdiv. rewrite Rinv_mult. replace (/ 0.1) with 10 by lra. lra. }
  split; [exact Hw|]. rewrite Hw. unfold Rdiv.
  assert (Hi : 0 < / r <= / (size P * 1.5)).
  { split; [by apply Rinv_0_lt_compat|]. apply Rinv_le_contravar; lra. }
  lra.
Qed.

Lemma disk_rotation_closed_form_witness :
  0 < size exploreProps /\ 0 <= accretionDiskSize exploreProps /\ rnd_ok sample_rnd /\
  0.5 / (disk_spawn_radius exploreProps (rnd_drop (3 * 4) sample_rnd) * 0.1) * 0.01
  = 0.05 / disk_spawn_radius exploreProps (rnd_drop (3 * 4) sample_rnd).
Proof.
  assert (Hs : 0 < size exploreProps) by (cbn; lra).
  assert (HA : 0 <= accretionDiskSize exploreProps) by (cbn; lra).
  split; [exact Hs|]. split; [exact HA|]. split; [exact sample_rnd_ok|].
  exact (proj1 (proj2 (disk_rotation_closed_form exploreProps sample_rnd 7 3 Hs HA
                         sample_rnd_ok ltac:(lia)))).
Defined.

Lemma particleData_loop_colors (P : BlackHoleProps) (n k : nat) (rnd : Rand) :
  let st := for_loop k (particleData_iter P) (disk_alloc n, rnd) in
  length (Disk.colors (fst st)) = (n * 3)%nat /\
  (forall j, (j < k)%nat -> (j < n)%nat ->
     rd3 (Disk.colors (fst st)) (j * 3)
     = disk_color ((disk_spawn_radius P (rnd_drop (j * 4) rnd) - size P * 1.5)
                   / accretionDiskSize P)).
Proof.
  induction k as [|k IH]; cbn zeta.
  - unfold for_loop. cbn. split; [apply length_replicate | intros; lia].
  - rewrite for_loop_S. cbn zeta in IH.
    destruct (particleData_loop P n k rnd) as (_ & _ & Hr & _).
    destruct (for_loop k (particleData_iter P) (disk_alloc n, rnd)) as [d r].
    destruct IH as [Hlen Hrd]. cbn [fst snd] in *.
    unfold particleData_iter. cbn [fst Disk.colors].
    split; [by rewrite length_wr3|].
    intros j Hj Hn. destruct (decide (j = k)) as [->|Hne].
    + rewrite rd3_wr3_eq by lia. by rewrite Hr.
    + rewrite rd3_wr3_ne by auto. apply Hrd; lia.
Qed.

Lemma disk_frames_colors (n : nat) (d : Disk.t) :
  Disk.colors (disk_frames n d) = Disk.colors d.
Proof. induction n as [|n IH]; cbn [disk_frames animate_disk Disk.colors]; auto. Qed.

(** X13. Colour gradient of the disk.  With a positive accretion-disk extent
    [A] and horizon radius [h = size * 1.5 > 0], after any number of frames
    the colour of a disk particle is given by its distance [rho] from the
    axis: (1, 0.8, 0.3) when [rho < h + 0.3 A], (1, 0.4, 0.1) when
    [h + 0.3 A <= rho < h + 0.6 A], and (0.8, 0.2, 0.5) beyond. *)
Theorem disk_color_by_radius (P : BlackHoleProps) (rnd : Rand) (n j : nat) :
  0 < size P -> 0 < accretionDiskSize P -> rnd_ok rnd -> (j < 2000)%nat ->
  let p := disk_after P rnd n j in
  let rho := sqrt (vx p * vx p + vz p * vz p) in
  let c := rd3 (Disk.colors (disk_frames n (fst (particleData P rnd)))) (j * 3) in
  let h := size P * 1.5 in
  let A := accretionDiskSize P in
  (rho < h + 0.3 * A -> c = V3 1 0.8 0.3) /\
  (h + 0.3 * A <= rho < h + 0.6 * A -> c = V3 1 0.4 0.1) /\
  (h + 0.6 * A <= rho -> c = V3 0.8 0.2 0.5).
Proof.
  intros Hs HA Hok Hj. cbn zeta.
  rewrite (disk_after_polar P rnd n j Hs (Rlt_le _ _ HA) Hok Hj). cbn [vx vz].
  assert (Hok' : rnd_ok (rnd_drop (j * 4) rnd)).
  { eapply rnd_suffix_ok; [|exact Hok]. eexists; reflexivity. }
  pose proof (disk_spawn_radius_bounds P _ (Rlt_le _ _ HA) Hok') as Hrb.
  rewrite disk_radius by lra.
  rewrite disk_frames_colors. unfold particleData, particleData_n.
  rewrite (proj2 (particleData_loop_colors P 2000 2000 rnd) j Hj Hj).
  set (r := disk_spawn_radius P (rnd_drop (j * 4) rnd)) in *.
  set (t := (r - size P * 1.5) / accretionDiskSize P).
  assert (Ht : r = size P * 1.5 + t * accretionDiskSize P).
  { unfold t. field. lra. }
  unfold disk_color.
  destruct (Rlt_dec t 0.3) as [H3|H3]; [|destruct (Rlt_dec t 0.6) as [H6|H6]].
  - split; [reflexivity|]. split; intros H; exfalso; nra.
  - split; [intros H; exfalso; nra|]. split; [reflexivity|]. intros H; exfalso; nra.
  - split; [intros H; exfalso; nra|]. split; [intros H; exfalso; nra | reflexivity].
Qed.

Lemma disk_color_by_radius_witness :
  0 < size exploreProps /\ 0 < accretionDiskSize exploreProps /\ rnd_ok sample_rnd /\
  let p := disk_after exploreProps sample_rnd 7 3 in
  (sqrt (vx p * vx p + vz p * vz p)
     < size exploreProps * 1.5 + 0.3 * accretionDiskSize exploreProps ->
   rd3 (Disk.colors (disk_frames 7 (fst (particleData exploreProps sample_rnd)))) (3 * 3)
   = V3 1 0.8 0.3).
Proof.
  assert (Hs : 0 < size exploreProps) by (cbn; lra).
  assert (HA : 0 < accretionDiskSize exploreProps) by (cbn; lra).
  split; [exact Hs|]. split; [exact HA|]. split; [exact sample_rnd_ok|].
  exact (proj1 (disk_color_by_radius exploreProps sample_rnd 7 3 Hs HA sample_rnd_ok
                  ltac:(lia))).
Defined.

(** ** Constellation: the line geometry *)

Lemma push_connection_None (stars : list Vec3) (conns : list (nat * nat)) :
  fold_left (push_connection stars) conns None = None.
Proof. induction conns as [|c conns IH]; [reflexivity | exact IH]. Qed.

Lemma push_connection_ok (stars : list Vec3) (acc : list Vec3) (c : nat * nat) :
  (c.1 < length stars)%nat -> (c.2 < length stars)%nat ->
  exists a b, stars !! c.1 = Some a /\ stars !! c.2 = Some b /\
    push_connection stars (Some acc) c = Some (acc ++ [a; b]).
Proof.
  intros H1 H2.
  destruct (lookup_lt_is_Some_2 stars c.1 H1) as [a Ha].
  destruct (lookup_lt_is_Some_2 stars c.2 H2) as [b Hb].
  exists a, b. unfold push_connection. cbn. rewrite Ha. cbn. rewrite Hb. cbn. auto.
Qed.

Lemma push_connection_bad (stars : list Vec3) (acc : list Vec3) (c : nat * nat) :
  ~ ((c.1 < length stars)%nat /\ (c.2 < length stars)%nat) ->
  push_connection stars (Some acc) c = None.
Proof.
  intros Hbad. unfold push_connection. cbn.
  destruct (stars !! c.1) as [a|] eqn:Ha; cbn; [|reflexivity].
  destruct (stars !! c.2) as [b|] eqn:Hb; cbn; [|reflexivity].
  exfalso. apply Hbad. split; eapply lookup_lt_Some; eassumption.
Qed.

Lemma lineGeometry_from (stars : list Vec3) (conns : list (nat * nat)) (acc : list Vec3) :
  Forall (fun c => (c.1 < length stars)%nat /\ (c.2 < length stars)%nat) conns ->
  exists pts,
    fold_left (push_connection stars) conns (Some acc) = Some (acc ++ pts) /\
    length pts = (2 * length conns)%nat /\
    (forall k c, conns !! k = Some c ->
       pts !! (2 * k)%nat = stars !! c.1 /\ pts !! (2 * k + 1)%nat = stars !! c.2).
Proof.
  revert acc. induction conns as [|c conns IH]; intros acc Hall.
  - exists []. cbn. rewrite app_nil_r. split; [reflexivity|]. split; [reflexivity|].
    intros k c Hk. destruct k; discriminate.
  - inversion Hall as [|? ? [H1 H2] Hrest]; subst.
    destruct (push_connection_ok stars acc c H1 H2) as (a & b & Ha & Hb & Hpush).
    destruct (IH (acc ++ [a; b]) Hrest) as (pts & Hfold & Hlen & Hpts).
    exists ([a; b] ++ pts). cbn [fold_left]. rewrite Hpush, Hfold, <- app_assoc.
    split; [reflexivity|]. split; [cbn; lia|].
    intros [|k] c' Hk.
    + cbn in Hk. injection Hk as <-. cbn. auto.
    + cbn in Hk. destruct (Hpts k c' Hk) as [Hp1 Hp2].
      replace (2 * S k)%nat with (S (S (2 * k))) by lia.
      replace (S (S (2 * k)) + 1)%nat with (S (S (2 * k + 1))) by lia.
      cbn. auto.
Qed.

(** X14. [lineGeometry] and out-of-range connections.  The geometry is built
    exactly when every connection names two existing stars; it then has two
    points per connection, the points of connection [k] being the stars it
    names, in order.  Any connection naming a missing star makes the whole
    construction fail. *)
Theorem lineGeometry_in_range (stars : list Vec3) (conns : list (nat * nat)) :
  let ok c := (c.1 < length stars)%nat /\ (c.2 < length stars)%nat in
  (Forall ok conns ->
     exists pts, lineGeometry stars conns = Some pts /\
       length pts = (2 * length conns)%nat /\
       (forall k c, conns !! k = Some c ->
          pts !! (2 * k)%nat = stars !! c.1 /\ pts !! (2 * k + 1)%nat = stars !! c.2)) /\
  (~ Forall ok conns -> lineGeometry stars conns = None).
Proof.
  cbn zeta. split.
  - intros Hall. destruct (lineGeometry_from stars conns [] Hall) as (pts & Hf & Hl & Hp).
    exists pts. unfold lineGeometry. rewrite Hf. auto.
  - unfold lineGeometry. generalize (@nil Vec3) as acc.
    induction conns as [|c conns IH]; intros acc Hbad.
    + exfalso. apply Hbad. constructor.
    + cbn [fold_left].
      destruct (decide ((c.1 < length stars)%nat /\ (c.2 < length stars)%nat)) as [Hc|Hc].
      * destruct Hc as [H1 H2].
        destruct (push_connection_ok stars acc c H1 H2) as (a & b & _ & _ & ->).
        apply IH. intros Hrest. apply Hbad. constructor; auto.
      * rewrite (push_connection_bad stars acc c Hc). apply push_connection_None.
Qed.

Lemma lineGeometry_in_range_witness :
  ~ Forall (fun c : nat * nat => (c.1 < length [V3 0 0 0; V3 1 1 0])%nat
                                  /\ (c.2 < length [V3 0 0 0; V3 1 1 0])%nat)
      [(0, 1); (1, 2)]%nat /\
  lineGeometry [V3 0 0 0; V3 1 1 0] [(0, 1); (1, 2)]%nat = None.
Proof.
  assert (Hbad : ~ Forall (fun c : nat * nat => (c.1 < length [V3 0 0 0; V3 1 1 0])%nat
                                  /\ (c.2 < length [V3 0 0 0; V3 1 1 0])%nat)
                     [(0, 1); (1, 2)]%nat).
  { intros H. inversion H as [|? ? _ H']; subst. inversion H' as [|? ? [_ H2] _]; subst.
    cbn in H2. lia. }
  split; [exact Hbad|].
  exact (proj2 (lineGeometry_in_range [V3 0 0 0; V3 1 1 0] [(0, 1); (1, 2)]%nat) Hbad).
Defined.

Ltac in_range_connections :=
  cbn [Constellations.stars Constellations.connections length];
  repeat (constructor; [cbn [fst snd]; lia|]); constructor.

Ltac star_is_connected :=
  solve [ repeat first [ (left; cbn [fst snd]; lia) | right ] ].

Ltac constellation_well_formed :=
  cbn zeta; split; [|split];
  [ match goal with
    | |- exists pts, lineGeometry ?s ?c = Some pts /\ _ =>
        let Hall := fresh "Hall" in
        assert (Hall : Forall (fun c0 : nat * nat =>
                                 (c0.1 < length s)%nat /\ (c0.2 < length s)%nat) c)
          by in_range_connections;
        let pts := fresh "pts" in
        let Hp := fresh "Hp" in
        let Hl := fresh "Hl" in
        destruct (proj1 (lineGeometry_in_range s c) Hall) as (pts & Hp & Hl & _);
        exists pts; split; [exact Hp | exact Hl]
    end
  | in_range_connections
  | let k := fresh "k" in
    let Hk := fresh "Hk" in
    intros k Hk;
    cbn [Constellations.stars Constellations.connections length] in Hk |- *;
    repeat (destruct k as [|k]; [star_is_connected | try lia]) ].

(** X15. The predefined constellations.  For each of the four entries of
    [CONSTELLATIONS] every connection names two distinct existing stars, so
    the line geometry is built, with twice as many points as connections,
    and every star is an end of at least one connection. *)
Theorem predefined_constellations_well_formed :
  Forall (fun C =>
    let stars := Constellations.stars C in
    let conns := Constellations.connections C in
    (exists pts, lineGeometry stars conns = Some pts /\
                 length pts = (2 * length conns)%nat) /\
    Forall (fun c : nat * nat => c.1 <> c.2) conns /\
    (forall k, (k < length stars)%nat ->
       Exists (fun c : nat * nat => c.1 = k \/ c.2 = k) conns))
  CONSTELLATIONS.
Proof.
  unfold CONSTELLATIONS.
  constructor; [unfold orion; constellation_well_formed|].
  constructor; [unfold bigDipper; constellation_well_formed|].
  constructor; [unfold cassiopeia; constellation_well_formed|].
  constructor; [unfold scorpius; constellation_well_formed|].
  constructor.
Qed.

(** ** Constellation: floating and hover pulse *)

Lemma sin_between (a : R) : -1 <= sin a <= 1.
Proof. apply SIN_bound. Qed.

Lemma cos_between (a : R) : -1 <= cos a <= 1.
Proof. apply COS_bound. Qed.

Lemma constellation_frames_snoc (positionY scale : R) (calls : list (bool * R))
    (c : bool * R) (g : Group) :
  constellation_frames positionY scale (calls ++ [c]) g
  = constellation_frame positionY scale c.1 c.2 (constellation_frames positionY scale calls g).
Proof. unfold constellation_frames. by rewrite fold_left_app. Qed.

(** X16. Floating and hover pulse of a constellation.  After any nonempty
    sequence of frames the group height is within 0.3 of [position[1]].  The
    group scale is only assigned in frames that see the constellation
    hovered: if no frame did, it is the initial one; if some frame did (and
    [scale >= 0]) it is within 5% of [scale], and it is not reset when the
    hover ends. *)
Theorem constellation_float_and_pulse
    (positionY scale : R) (calls : list (bool * R)) (g : Group) :
  let g' := constellation_frames positionY scale calls g in
  (calls <> [] -> positionY - 0.3 <= group_y g' <= positionY + 0.3) /\
  (Forall (fun c : bool * R => c.1 = false) calls -> group_scale g' = group_scale g) /\
  (0 <= scale -> Exists (fun c : bool * R => c.1 = true) calls ->
     scale * 0.95 <= group_scale g' <= scale * 1.05).
Proof.
  cbn zeta. induction calls as [|[hovered t] calls IH] using rev_ind.
  - split; [intros H; by destruct H|]. split; [reflexivity|].
    intros _ H. inversion H.
  - rewrite constellation_frames_snoc. cbn [fst snd].
    destruct IH as (_ & IHno & IHyes).
    split; [|split].
    + intros _. cbn [constellation_frame group_y].
      pose proof (sin_between (t * 0.5)). lra.
    + intros Hall. apply Forall_app in Hall as [Hall Hlast].
      inversion Hlast as [|? ? Hh _]; subst. cbn in Hh. subst hovered.
      cbn [constellation_frame group_scale]. by apply IHno.
    + intros Hs Hex. cbn [constellation_frame group_scale].
      destruct hovered.
      * pose proof (sin_between (t * 3)). nra.
      * apply IHyes; [exact Hs|].
        apply Exists_app in Hex as [Hex|Hex]; [exact Hex|].
        inversion Hex as [? ? Hh|? ? Hh]; subst; [cbn in Hh; discriminate | inversion Hh].
Qed.

Lemma constellation_float_and_pulse_witness :
  [(true, 1); (false, 2)] <> [] /\
  let g' := constellation_frames 10 2 [(true, 1); (false, 2)] (mkGroup 10 1) in
  10 - 0.3 <= group_y g' <= 10 + 0.3.
Proof.
  assert (Hne : [(true, 1); (false, 2)] <> ([] : list (bool * R))) by discriminate.
  split; [exact Hne|].
  exact (proj1 (constellation_float_and_pulse 10 2 [(true, 1); (false, 2)] (mkGroup 10 1)) Hne).
Defined.

(** ** AsteroidField *)

Lemma asteroidData_spec (count : nat) (radius thickness : R) (rnd : Rand) :
  length (fst (asteroidData count radius thickness rnd)) = count /\
  snd (asteroidData count radius thickness rnd) = rnd_drop (count * 11) rnd /\
  (forall i, (i < count)%nat ->
     fst (asteroidData count radius thickness rnd) !! i
     = Some (new_asteroid radius thickness (rnd_drop (i * 11) rnd))).
Proof.
  revert rnd. induction count as [|count IH]; intros rnd.
  - cbn. split; [reflexivity|]. split; [|intros; lia].
    apply functional_extensionality. intros k. reflexivity.
  - cbn [asteroidData]. destruct (IH (rnd_drop 11 rnd)) as (Hlen & Hrnd & Hget).
    destruct (asteroidData count radius thickness (rnd_drop 11 rnd)) as [rest rnd'].
    cbn [fst snd] in *. split; [cbn; lia|]. split.
    + rewrite Hrnd, rnd_drop_drop. f_equal; lia.
    + intros [|i] Hi.
      * cbn. do 2 f_equal; apply functional_extensionality; intros k; reflexivity.
      * cbn. rewrite Hget by lia. rewrite rnd_drop_drop. do 3 f_equal; lia.
Qed.

(** X17. [asteroidData] makes exactly [count] asteroids from [11 * count]
    draws, and (for a nonnegative thickness) each has its orbit distance
    within half the thickness of [radius], its height within a quarter of
    the thickness, a scale in [[0.08, 0.68)], an orbit speed in
    [[0.015, 0.055)], a wobble speed in [[1, 3)], a wobble amount in
    [[0, 0.3)] and a tumbling speed in [[-1.5, 1.5)]. *)
Theorem asteroidData_ranges (count : nat) (radius thickness : R) (rnd : Rand) :
  0 <= thickness -> rnd_ok rnd ->
  let data := asteroidData count radius thickness rnd in
  length (fst data) = count /\
  snd data = rnd_drop (count * 11) rnd /\
  Forall (fun a =>
    radius - thickness / 2 <= Asteroid.distance a <= radius + thickness / 2 /\
    - (thickness / 4) <= Asteroid.height a <= thickness / 4 /\
    0.08 <= Asteroid.scale a < 0.68 /\
    0.015 <= Asteroid.orbitSpeed a < 0.055 /\
    1 <= Asteroid.wobbleSpeed a < 3 /\
    0 <= Asteroid.wobbleAmount a < 0.3 /\
    -1.5 <= Asteroid.rotationSpeed a < 1.5) (fst data).
Proof.
  intros Ht Hok. cbn zeta.
  destruct (asteroidData_spec count radius thickness rnd) as (Hlen & Hrnd & Hget).
  split; [exact Hlen|]. split; [exact Hrnd|].
  apply Forall_lookup. intros i a Hi.
  assert (Hlt : (i < count)%nat).
  { rewrite <- Hlen. eapply lookup_lt_Some. exact Hi. }
  rewrite Hget in Hi by exact Hlt. injection Hi as <-.
  assert (Hok' : rnd_ok (rnd_drop (i * 11) rnd)).
  { eapply rnd_suffix_ok; [|exact Hok]. eexists; reflexivity. }
  cbn [new_asteroid Asteroid.distance Asteroid.height Asteroid.scale Asteroid.orbitSpeed
       Asteroid.wobbleSpeed Asteroid.wobbleAmount Asteroid.rotationSpeed].
  pose proof (Hok' 1%nat). pose proof (Hok' 2%nat). pose proof (Hok' 3%nat).
  pose proof (Hok' 4%nat). pose proof (Hok' 8%nat). pose proof (Hok' 9%nat).
  pose proof (Hok' 10%nat).
  repeat split; nra.
Qed.

Lemma asteroidData_ranges_witness :
  0 <= 15 /\ rnd_ok sample_rnd /\
  length (fst (asteroidData 300 60 15 sample_rnd)) = 300%nat.
Proof.
  assert (Ht : 0 <= 15) by lra.
  split; [exact Ht|]. split; [exact sample_rnd_ok|].
  exact (proj1 (asteroidData_ranges 300 60 15 sample_rnd Ht sample_rnd_ok)).
Defined.

(** The horizontal offset of an asteroid from the field centre: a point of
    the orbit circle of radius [d] moved by a wobble [u] along x. *)
Lemma wobbled_circle_bounds (c s d u w : R) :
  c * c + s * s = 1 -> 0 <= d -> - w <= u <= w ->
  let h := sqrt ((c * d + u) * (c * d + u) + s * d * (s * d)) in
  d - w <= h <= d + w.
Proof.
  intros Hcs Hd Hu. cbn zeta.
  assert (Hw : 0 <= w) by lra.
  assert (Hc : -1 <= c <= 1) by nra.
  assert (Hsq : (c * d + u) * (c * d + u) + s * d * (s * d)
                = d * d + 2 * c * d * u + u * u).
  { replace (s * d * (s * d)) with ((1 - c * c) * (d * d)) by nra. ring. }
  rewrite Hsq.
  split.
  - destruct (Rle_dec d w) as [Hdw|Hdw].
    + pose proof (sqrt_pos (d * d + 2 * c * d * u + u * u)). lra.
    + rewrite <- (sqrt_square (d - w)) by lra. apply sqrt_le_1_alt.
      destruct (Rle_dec 0 u) as [Hpos|Hneg].
      * assert (0 <= (w - u) * (2 * d - w - u)) by (apply Rmult_le_pos; lra).
        assert (0 <= (c + 1) * (d * u)) by (apply Rmult_le_pos; [lra | apply Rmult_le_pos; lra]).
        nra.
      * assert (0 <= (w + u) * (2 * d - w + u)) by (apply Rmult_le_pos; lra).
        assert (0 <= (1 - c) * (d * - u)) by (apply Rmult_le_pos; [lra | apply Rmult_le_pos; lra]).
        nra.
  - rewrite <- (sqrt_square (d + w)) by lra. apply sqrt_le_1_alt.
    assert (c * d * u <= d * w).
    { destruct (Rle_dec 0 u).
      - assert (0 <= (1 - c) * (d * u)) by (apply Rmult_le_pos; [lra | apply Rmult_le_pos; lra]).
        nra.
      - assert (0 <= (c + 1) * (d * - u)) by (apply Rmult_le_pos; [lra | apply Rmult_le_pos; lra]).
        nra. }
    nra.
Qed.

(** X18. The asteroid belt keeps its shape.  At every elapsed time, an
    asteroid of [asteroidData] (thickness nonnegative and at most twice the
    radius) is at a horizontal distance from the field centre between
    [radius - thickness / 2 - 0.3] and [radius + thickness / 2 + 0.3], at a
    height within [thickness / 4 + 0.6] of the centre, and drawn at a scale
    between 0.076 and 0.714. *)
Theorem asteroid_stays_in_belt
    (count : nat) (radius thickness rotationSpeed : R) (position : Vec3)
    (rnd : Rand) (a : Asteroid.t) (t : R) :
  0 <= thickness -> thickness / 2 <= radius -> rnd_ok rnd ->
  a ∈ fst (asteroidData count radius thickness rnd) ->
  let p := asteroid_position position rotationSpeed a t in
  let dx := vx p - vx position in
  let dz := vz p - vz position in
  radius - thickness / 2 - 0.3 <= sqrt (dx * dx + dz * dz) <= radius + thickness / 2 + 0.3 /\
  Rabs (vy p - vy position) <= thickness / 4 + 0.6 /\
  0.076 <= asteroid_scale a t < 0.714.
Proof.
  intros Ht Hr Hok Hin. cbn zeta.
  apply list_elem_of_lookup in Hin as [i Hi].
  destruct (asteroidData_spec count radius thickness rnd) as (Hlen & _ & Hget).
  assert (Hlt : (i < count)%nat).
  { rewrite <- Hlen. eapply lookup_lt_Some. exact Hi. }
  rewrite Hget in Hi by exact Hlt. injection Hi as <-.
  assert (Hok' : rnd_ok (rnd_drop (i * 11) rnd)).
  { eapply rnd_suffix_ok; [|exact Hok]. eexists; reflexivity. }
  set (r := rnd_drop (i * 11) rnd) in *.
  pose proof (Hok' 1%nat) as H1. pose proof (Hok' 2%nat) as H2.
  pose proof (Hok' 3%nat) as H3. pose proof (Hok' 10%nat) as H10.
  unfold asteroid_position, asteroid_scale.
  cbn [new_asteroid Asteroid.angle Asteroid.distance Asteroid.height Asteroid.scale
       Asteroid.orbitSpeed Asteroid.wobbleSpeed Asteroid.wobbleAmount
       Asteroid.rotationSpeed vx vy vz].
  set (ang := r 0%nat * PI * 2 + t * (0.015 + r 8%nat * 0.04) * rotationSpeed).
  set (d := radius + (r 1%nat - 0.5) * thickness).
  set (w := r 10%nat * 0.3).
  set (s1 := sin (t * (r 9%nat * 2 + 1))).
  pose proof (sin_between (t * (r 9%nat * 2 + 1))) as Hs1. fold s1 in Hs1.
  assert (Hd : radius - thickness / 2 <= d <= radius + thickness / 2) by (unfold d; nra).
  assert (Hw : 0 <= w < 0.3) by (unfold w; lra).
  split; [|split].
  - replace (cos ang * d + vx position + s1 * w - vx position) with (cos ang * d + s1 * w)
      by ring.
    replace (sin ang * d + vz position - vz position) with (sin ang * d) by ring.
    assert (Hu : - w <= s1 * w <= w) by (split; nra).
    pose proof (wobbled_circle_bounds (cos ang) (sin ang) d (s1 * w) w) as Hb.
    cbn zeta in Hb.
    assert (Hcs : cos ang * cos ang + sin ang * sin ang = 1).
    { pose proof (sin_cos_sq ang). lra. }
    specialize (Hb Hcs ltac:(lra) Hu). lra.
  - pose proof (sin_between (t * ((r 4%nat - 0.5) * 3) * 0.5)) as Hs2.
    pose proof (cos_between (t * (r 9%nat * 2 + 1) * 0.7)) as Hc2.
    apply Rabs_le. split; nra.
  - nra.
Qed.

Lemma asteroid_stays_in_belt_witness :
  0 <= 15 /\ 15 / 2 <= 60 /\ rnd_ok sample_rnd /\
  new_asteroid 60 15 sample_rnd ∈ fst (asteroidData 300 60 15 sample_rnd) /\
  0.076 <= asteroid_scale (new_asteroid 60 15 sample_rnd) 42 < 0.714.
Proof.
  assert (Ht : 0 <= 15) by lra.
  assert (Hr : 15 / 2 <= 60) by lra.
  assert (Hin : new_asteroid 60 15 sample_rnd ∈ fst (asteroidData 300 60 15 sample_rnd)).
  { apply list_elem_of_lookup. exists 0%nat.
    rewrite (proj2 (proj2 (asteroidData_spec 300 60 15 sample_rnd)) 0%nat) by lia.
    reflexivity. }
  split; [exact Ht|]. split; [exact Hr|]. split; [exact sample_rnd_ok|].
  split; [exact Hin|].
  exact (proj2 (proj2 (asteroid_stays_in_belt 300 60 15 0.15 (V3 0 0 (-60)) sample_rnd
                         (new_asteroid 60 15 sample_rnd) 42 Ht Hr sample_rnd_ok Hin))).
Defined.

(** X19. The larger asteroids of the render.  There are
    [min 20 (count / 10)] of them: at most 20, at most a tenth of [count],
    none when [count < 10] and 20 exactly when [count >= 200].  Their angles
    increase with the index in steps of a twentieth of a turn, so only the
    first [n / 20] of the ring is covered when there are [n < 20] of them. *)
Theorem large_asteroids_layout (count : nat) :
  let n := large_asteroid_count count in
  (n <= 20)%nat /\ (n * 10 <= count)%nat /\
  (n = 0%nat <-> (count < 10)%nat) /\
  (n = 20%nat <-> (200 <= count)%nat) /\
  (forall i, (i < n)%nat ->
     0 <= large_asteroid_angle i /\
     large_asteroid_angle i < INR n / 20 * (2 * PI) /\
     large_asteroid_angle (S i) - large_asteroid_angle i = 2 * PI / 20).
Proof.
  cbn zeta. unfold large_asteroid_count.
  pose proof (Nat.Div0.mul_div_le count 10) as Hdiv.
  assert (Hdiv' : (count < 10 * S (count / 10))%nat).
  { apply Nat.mul_succ_div_gt. lia. }
  split; [lia|]. split; [lia|]. split; [lia|]. split; [lia|].
  intros i Hi. unfold large_asteroid_angle.
  pose proof PI_RGT_0 as Hpi. pose proof (pos_INR i) as Hi0.
  apply lt_INR in Hi. rewrite S_INR.
  split; [nra|]. split; [nra | lra].
Qed.
